(** * Widget shipment models of [modeling1_colab.ipynb]

    The notebook builds two Gurobi models: [m] (name 'widgets') and [m2]
    (name 'widgets2'), hands each to [optimize] and reads values back through
    pandas.  The models are embedded as the data the gurobipy calls build
    (variables with bounds, objective coefficients and types; linear
    constraints), over exact rationals.  The solver itself is external and is
    described by what each of its statuses tells of the model. *)

From Stdlib Require Import QArith Qround Lqa List String Bool PeanoNat NArith Lia.
From Stdlib Require Import Permutation Sorted.
Import ListNotations.
Local Open Scope Q_scope.

(** ** Python exceptions and fallible evaluation *)

Inductive exn : Set := KeyError | ValueError | AssertionError | AttributeError.

Inductive result (A : Type) : Type :=
| Ok (a : A)
| Raise (e : exn).

Arguments Ok {A} a.
Arguments Raise {A} e.

Definition bind {A B : Type} (r : result A) (k : A -> result B) : result B :=
  match r with
  | Ok a => k a
  | Raise e => Raise e
  end.

Notation "x <- r ;; k" := (bind r (fun x => k))
  (at level 61, r at next level, right associativity).

(** A comprehension or generator whose body may raise: elements are
    produced left to right and the first exception ends it. *)
Fixpoint mapM {A B : Type} (f : A -> result B) (l : list A) : result (list B) :=
  match l with
  | [] => Ok []
  | a :: l' => b <- f a ;; bs <- mapM f l' ;; Ok (b :: bs)
  end.

Definition get_or {A : Type} (dflt : A) (r : result A) : A :=
  match r with
  | Ok a => a
  | Raise _ => dflt
  end.

(** Finite sums of rationals. *)
Definition Qsum {A : Type} (f : A -> Q) (l : list A) : Q :=
  fold_right (fun a acc => f a + acc) 0 l.

(** Index keys of the shipment variables: tuples [(p, d)]. *)
Definition Key : Set := (string * string)%type.

Definition Key_eqb (k k' : Key) : bool :=
  (fst k =? fst k')%string && (snd k =? snd k')%string.

(** Whether a list names each of its elements once. *)
Fixpoint nodup_by {A : Type} (eqb : A -> A -> bool) (l : list A) : bool :=
  match l with
  | [] => true
  | a :: l' => negb (existsb (eqb a) l') && nodup_by eqb l'
  end.

(** ** pandas: a Series is a column of values under an index of labels *)

Module pd.

Definition Series (L : Type) : Type := list (L * Q).

Section Labelled.
Context {L : Type}.
Variable L_eqb : L -> L -> bool.

Definition index (s : Series L) : list L := map fst s.

(** [pd.Series(values, index = labels)]: the lengths must agree. *)
Definition Series_ (values : list Q) (labels : list L) : result (Series L) :=
  if Nat.eqb (List.length values) (List.length labels)
  then Ok (combine labels values)
  else Raise ValueError.

(** [s[l]]: the value under label [l], for an index that names each label
    once; of a label named twice this reads the first row. *)
Fixpoint loc (s : Series L) (l : L) : result Q :=
  match s with
  | [] => Raise KeyError
  | (l', v) :: s' => if L_eqb l' l then Ok v else loc s' l
  end.

(** [pd.Series(d, index = labels)] for a dict [d]: one row per label of
    [labels], holding NaN ([None]) where [d] has no such key. *)
Fixpoint dict_get (d : list (L * Q)) (l : L) : option Q :=
  match d with
  | [] => None
  | (l', v) :: d' => if L_eqb l' l then Some v else dict_get d' l
  end.

Definition Series_of_dict (d : list (L * Q)) (labels : list L)
  : list (L * option Q) :=
  map (fun l => (l, dict_get d l)) labels.
End Labelled.

(** A row of [pd.concat([costs, shipments], axis = 1)]. *)
Record Row : Type := mkRow { label : Key; cost : Q; shipment : option Q }.

(** Both columns carry the same index, so rows pair up position by position. *)
Definition concat (costs : Series Key) (ships : list (Key * option Q)) : list Row :=
  map (fun cs => mkRow (fst (fst cs)) (snd (fst cs)) (snd (snd cs)))
      (combine costs ships).

(** [NaN > 0] is [False]. *)
Definition shipment_pos (r : Row) : bool :=
  match shipment r with
  | Some v => negb (Qle_bool v 0)
  | None => false
  end.

(** [sol[sol.shipment > 0]] *)
Definition positive_rows (sol : list Row) : list Row := filter shipment_pos sol.

(** Labels in increasing order, each once: the order in which pandas lays out
    the axes of a [pivot]. *)
Fixpoint insert_label (a : string) (l : list string) : list string :=
  match l with
  | [] => [a]
  | b :: l' => if (a =? b)%string then l
               else if (a <=? b)%string then a :: l
               else b :: insert_label a l'
  end.

Definition sorted_labels (l : list string) : list string :=
  fold_right insert_label [] l.

(** The order of labels: that of their characters, compared by code. *)
Definition label_lt (a b : string) : Prop := (a ?= b)%string = Lt.

(** A pivoted table: the column labels, then one line per row label with a
    cell under each column, NaN ([None]) where the pair has no entry. *)
Record Pivot : Type := mkPivot {
  columns : list string;
  table : list (string * list (option Q))
}.

(** [costs.reset_index().pivot(index = 'production', columns = 'distribution',
                               values = 'cost')]: a pair listed twice cannot
    be reshaped. *)
Definition pivot (costs : Series Key) : result Pivot :=
  if nodup_by Key_eqb (index costs)
  then let cols := sorted_labels (map snd (index costs)) in
       Ok (mkPivot cols
             (map (fun p => (p, map (fun l => dict_get Key_eqb costs (p, l)) cols))
                  (sorted_labels (map fst (index costs)))))
  else Raise ValueError.

End pd.

(** ** gurobipy: models as data *)

Module gp.

Inductive VType : Set := CONTINUOUS | BINARY | INTEGER.

Inductive Sense : Set := LESS_EQUAL | GREATER_EQUAL | EQUAL.

(** A variable: its name stem (the [name] argument), its index key, bounds
    ([None] is an infinite upper bound), objective coefficient and type. *)
Record Var : Type := mkVar {
  VarName : string;
  VarKey : Key;
  LB : Q;
  UB : option Q;
  Obj : Q;
  VType_ : VType
}.

(** A linear expression: coefficient-variable terms, variables named by key. *)
Definition LinExpr : Type := list (Q * Key).

Record TempConstr : Type := mkTemp { t_lhs : LinExpr; t_sense : Sense; t_rhs : Q }.

Record Constr : Type := mkConstr {
  ConstrName : string;
  ConstrKey : string;
  Lhs : LinExpr;
  Sense_ : Sense;
  RHS : Q
}.

Record Model : Type := mkModel {
  ModelName : string;
  Vars : list Var;
  Constrs : list Constr
}.

(** [gp.Model(name)]: no variables, no constraints, zero objective, to be
    minimised. *)
Definition Model_ (name : string) : Model := mkModel name [] [].

Definition tupledict : Type := list (Key * Var).

(** [x[p, d]] *)
Fixpoint getitem (x : tupledict) (k : Key) : result Var :=
  match x with
  | [] => Raise KeyError
  | (k', v) :: x' => if Key_eqb k' k then Ok v else getitem x' k
  end.

(** [M.addVars(ps, ds, obj = costs, name = stem)]: one continuous variable
    per pair of [ps x ds] in product order, lower bound 0, no upper bound.
    With no pair nothing is added and [obj] is not looked at.  Otherwise a
    Series given as [obj] is read as a list: its values go to the pairs
    position by position, whatever its index says, and they must be as many
    as the pairs ([AssertionError]).  A pair met twice is refused
    ([KeyError]: duplicate keys).  Where both faults are present the one
    reported here is the count; the properties below take them one at a
    time. *)
Definition addVars (M : Model) (ps ds : list string) (obj : pd.Series Key)
    (stem : string) : result (Model * tupledict) :=
  let ks := list_prod ps ds in
  match ks with
  | [] => Ok (M, [])
  | _ :: _ =>
      if negb (Nat.eqb (List.length obj) (List.length ks)) then Raise AssertionError
      else if negb (nodup_by Key_eqb ks) then Raise KeyError
      else
        let vs := map (fun kc => (fst kc, mkVar stem (fst kc) 0 None (snd kc) CONTINUOUS))
                      (combine ks (map snd obj)) in
        Ok (mkModel (ModelName M) (Vars M ++ map snd vs) (Constrs M), vs)
  end.

(** [gp.quicksum(vars)] *)
Definition quicksum (vs : list Var) : LinExpr := map (fun v => (1, VarKey v)) vs.

(** [expr >= rhs] *)
Definition ge (e : LinExpr) (rhs : Q) : TempConstr := mkTemp e GREATER_EQUAL rhs.

(** [M.addConstrs(generator, name = stem)], the generator already run. *)
Definition addConstrs (M : Model) (gen : list (string * TempConstr))
    (stem : string) : Model :=
  mkModel (ModelName M) (Vars M)
    (Constrs M ++
     map (fun it => mkConstr stem (fst it) (t_lhs (snd it)) (t_sense (snd it))
                             (t_rhs (snd it))) gen).

(** *** Solutions *)

(** The [X] attribute: a value per variable. *)
Definition Solution : Type := Key -> Q.

(** [expr.getValue()] *)
Definition getValue (e : LinExpr) (X : Solution) : Q :=
  Qsum (fun t => fst t * X (snd t)) e.

(** [M.getObjective()]: the objective coefficients of the variables. *)
Definition getObjective (M : Model) : LinExpr :=
  map (fun v => (Obj v, VarKey v)) (Vars M).

Definition ObjVal (M : Model) (X : Solution) : Q := getValue (getObjective M) X.

(** [M.getAttr('X', x)] *)
Definition getAttr_X (X : Solution) (x : tupledict) : list (Key * Q) :=
  map (fun kv => (fst kv, X (VarKey (snd kv)))) x.

Definition is_integral (q : Q) : Prop := inject_Z (Qfloor q) == q.

Definition var_ok (X : Solution) (v : Var) : Prop :=
  LB v <= X (VarKey v) /\
  match UB v with Some u => X (VarKey v) <= u | None => True end /\
  match VType_ v with
  | CONTINUOUS => True
  | BINARY => X (VarKey v) == 0 \/ X (VarKey v) == 1
  | INTEGER => is_integral (X (VarKey v))
  end.

Definition constr_ok (X : Solution) (c : Constr) : Prop :=
  match Sense_ c with
  | LESS_EQUAL => getValue (Lhs c) X <= RHS c
  | GREATER_EQUAL => RHS c <= getValue (Lhs c) X
  | EQUAL => getValue (Lhs c) X == RHS c
  end.

Definition feasible (M : Model) (X : Solution) : Prop :=
  Forall (var_ok X) (Vars M) /\ Forall (constr_ok X) (Constrs M).

(** The same test as a computation. *)
Definition var_okb (X : Solution) (v : Var) : bool :=
  Qle_bool (LB v) (X (VarKey v)) &&
  match UB v with Some u => Qle_bool (X (VarKey v)) u | None => true end &&
  match VType_ v with
  | CONTINUOUS => true
  | BINARY => Qeq_bool (X (VarKey v)) 0 || Qeq_bool (X (VarKey v)) 1
  | INTEGER => Qeq_bool (inject_Z (Qfloor (X (VarKey v)))) (X (VarKey v))
  end.

Definition constr_okb (X : Solution) (c : Constr) : bool :=
  match Sense_ c with
  | LESS_EQUAL => Qle_bool (getValue (Lhs c) X) (RHS c)
  | GREATER_EQUAL => Qle_bool (RHS c) (getValue (Lhs c) X)
  | EQUAL => Qeq_bool (getValue (Lhs c) X) (RHS c)
  end.

Definition feasibleb (M : Model) (X : Solution) : bool :=
  forallb (var_okb X) (Vars M) && forallb (constr_okb X) (Constrs M).

(** *** What [optimize] tells

    The solver ends in one of four statuses.  With [OPTIMAL] it leaves a
    solution that is feasible and of least objective value; which one, among
    several, is its choice.  [INFEASIBLE] tells that no assignment is
    feasible.  [UNBOUNDED] and [INF_OR_UNBD] tell of a ray along which the
    objective falls without end inside the bounds and constraints; neither
    tells whether a feasible point exists, and the second is what the
    presolve answers by default when it finds such a ray. *)

Definition optimal (M : Model) (X : Solution) : Prop :=
  feasible M X /\ forall X', feasible M X' -> ObjVal M X <= ObjVal M X'.

Definition infeasible (M : Model) : Prop := forall X, ~ feasible M X.

Definition unbounded (M : Model) : Prop :=
  (exists X, feasible M X) /\
  forall bound : Q, exists X, feasible M X /\ ObjVal M X < bound.

(** A direction [r] that leaves every bound and constraint satisfied however
    far one follows it. *)
Definition ray_var_ok (r : Solution) (v : Var) : Prop :=
  0 <= r (VarKey v) /\
  match UB v with Some _ => r (VarKey v) <= 0 | None => True end /\
  match VType_ v with
  | CONTINUOUS => True
  | BINARY => r (VarKey v) == 0
  | INTEGER => is_integral (r (VarKey v))
  end.

Definition ray_constr_ok (r : Solution) (c : Constr) : Prop :=
  match Sense_ c with
  | LESS_EQUAL => getValue (Lhs c) r <= 0
  | GREATER_EQUAL => 0 <= getValue (Lhs c) r
  | EQUAL => getValue (Lhs c) r == 0
  end.

Definition improving_ray (M : Model) (r : Solution) : Prop :=
  Forall (ray_var_ok r) (Vars M) /\ Forall (ray_constr_ok r) (Constrs M) /\
  ObjVal M r < 0.

Inductive Outcome : Type :=
| OPTIMAL (X : Solution)
| INFEASIBLE
| UNBOUNDED
| INF_OR_UNBD.

Definition optimize (M : Model) (o : Outcome) : Prop :=
  match o with
  | OPTIMAL X => optimal M X
  | INFEASIBLE => infeasible M
  | UNBOUNDED => exists r, improving_ray M r
  | INF_OR_UNBD => exists r, improving_ray M r
  end.

(** Whether a solve may end on [o] where the data point to [expected]: the
    two statuses that tell of a ray stand for each other. *)
Definition may_end (expected o : Outcome) : bool :=
  match expected, o with
  | OPTIMAL _, OPTIMAL _ | INFEASIBLE, INFEASIBLE => true
  | (UNBOUNDED | INF_OR_UNBD), (UNBOUNDED | INF_OR_UNBD) => true
  | _, _ => false
  end.


End gp.

(** ** The notebook *)

Module Notebook.

(** The data the cells work on.  The notebook writes the two sets, the
    capacities, the demands and [frac] as literals and reads the costs from
    [cost.csv]. *)
Record Data : Type := mkData {
  production : list string;
  distribution : list string;
  transp_cost : pd.Series Key;
  max_prod_values : list Q;
  n_demand_values : list Q;
  frac : Q
}.

(** [max_prod = pd.Series([...], index = production)] *)
Definition max_prod (d : Data) : result (pd.Series string) :=
  pd.Series_ (max_prod_values d) (production d).

(** [n_demand = pd.Series([...], index = distribution)] *)
Definition n_demand (d : Data) : result (pd.Series string) :=
  pd.Series_ (n_demand_values d) (distribution d).

(** [m = gp.Model('widgets')].  The cells that were to add its variables,
    constraints and objective are empty, so no datum reaches [m]. *)
Definition m (d : Data) : gp.Model := gp.Model_ "widgets".

(** The cell of the two Series, [max_prod] first. *)
Definition cell_4 (d : Data) : result (pd.Series string * pd.Series string) :=
  caps <- max_prod d ;; demands <- n_demand d ;; Ok (caps, demands).

(** The cell that builds the second model:
    [m2 = gp.Model('widgets2')],
    [x = m2.addVars(production, distribution, obj = transp_cost, name = 'prod_ship')],
    [meet_demand = m2.addConstrs((gp.quicksum(x[p,d] for p in production)
                                  >= n_demand[d] for d in distribution),
                                 name = 'meet_demand')].
    The cells after it, up to [m2.optimize()], are empty. *)
Definition cell_33 (d : Data) (demands : pd.Series string)
  : result (gp.Model * gp.tupledict) :=
  mx <- gp.addVars (gp.Model_ "widgets2") (production d) (distribution d)
                   (transp_cost d) "prod_ship" ;;
  gen <- mapM (fun l =>
                 vs <- mapM (fun p => gp.getitem (snd mx) (p, l)) (production d) ;;
                 rhs <- pd.loc String.eqb demands l ;;
                 Ok (l, gp.ge (gp.quicksum vs) rhs))
              (distribution d) ;;
  Ok (gp.addConstrs (fst mx) gen "meet_demand", snd mx).

(** The second model as the notebook reaches it: the cell of the Series,
    then the cell of the model; the first error ends the run. *)
Definition widgets2 (d : Data) : result (gp.Model * gp.tupledict) :=
  series <- cell_4 d ;; cell_33 d (snd series).

Definition m2 (d : Data) : result gp.Model := r <- widgets2 d ;; Ok (fst r).

Definition x (d : Data) : result gp.tupledict := r <- widgets2 d ;; Ok (snd r).

(** [obj.getValue()] of [obj = M.getObjective()] *)
Definition total_cost (M : gp.Model) (X : gp.Solution) : Q :=
  gp.getValue (gp.getObjective M) X.


(** [x2_values = pd.Series(m2.getAttr('X', x), name = "shipment",
                           index = transp_cost.index)],
    [sol2 = pd.concat([transp_cost, x2_values], axis = 1)] *)
Definition sol2 (d : Data) (xs : gp.tupledict) (X : gp.Solution) : list pd.Row :=
  pd.concat (transp_cost d)
    (pd.Series_of_dict Key_eqb (gp.getAttr_X X xs) (pd.index (transp_cost d))).

(** The cost recomputed from the displayed rows [sol2[sol2.shipment > 0]]. *)
Definition recomputed_cost (rows : list pd.Row) : Q :=
  Qsum (fun r => pd.cost r * match pd.shipment r with Some v => v | None => 0 end)
       (pd.positive_rows rows).

(** [xvals = {k: v.x for k, v in x.items() if v.x > 0}] *)
Definition xvals (xs : gp.tupledict) (X : gp.Solution) : list (Key * Q) :=
  map (fun kv => (fst kv, X (gp.VarKey (snd kv))))
      (filter (fun kv => negb (Qle_bool (X (gp.VarKey (snd kv))) 0)) xs).

(** Total shipped out of facility [p], into location [l]. *)
Definition ship_out (d : Data) (X : gp.Solution) (p : string) : Q :=
  Qsum (fun l => X (p, l)) (distribution d).

Definition ship_in (d : Data) (X : gp.Solution) (l : string) : Q :=
  Qsum (fun p => X (p, l)) (production d).

(** *** The notebook's own data *)

Definition the_production : list string :=
  ["Baltimore"; "Cleveland"; "Little Rock"; "Birmingham"; "Charleston"]%string.

Definition the_distribution : list string :=
  ["Columbia"; "Indianapolis"; "Lexington"; "Nashville"; "Richmond"; "St. Louis"]%string.

(** The cost table.  [cost.csv] is not part of the sources; the values are
    those the notebook displays, the rows in the order of production x
    distribution, in which [addVars] gives each pair its own cost, as the
    notebook says it does. *)
Definition the_transp_cost : pd.Series Key :=
  [ (("Baltimore", "Columbia"), 4.50); (("Baltimore", "Indianapolis"), 5.09);
    (("Baltimore", "Lexington"), 4.33); (("Baltimore", "Nashville"), 5.96);
    (("Baltimore", "Richmond"), 1.96); (("Baltimore", "St. Louis"), 7.30);
    (("Cleveland", "Columbia"), 2.43); (("Cleveland", "Indianapolis"), 2.37);
    (("Cleveland", "Lexington"), 2.54); (("Cleveland", "Nashville"), 4.13);
    (("Cleveland", "Richmond"), 3.20); (("Cleveland", "St. Louis"), 4.88);
    (("Little Rock", "Columbia"), 6.42); (("Little Rock", "Indianapolis"), 4.83);
    (("Little Rock", "Lexington"), 3.39); (("Little Rock", "Nashville"), 4.40);
    (("Little Rock", "Richmond"), 7.44); (("Little Rock", "St. Louis"), 2.92);
    (("Birmingham", "Columbia"), 3.33); (("Birmingham", "Indianapolis"), 4.33);
    (("Birmingham", "Lexington"), 3.38); (("Birmingham", "Nashville"), 1.53);
    (("Birmingham", "Richmond"), 5.95); (("Birmingham", "St. Louis"), 4.01);
    (("Charleston", "Columbia"), 3.02); (("Charleston", "Indianapolis"), 2.61);
    (("Charleston", "Lexington"), 1.61); (("Charleston", "Nashville"), 4.44);
    (("Charleston", "Richmond"), 2.36); (("Charleston", "St. Louis"), 4.60)
  ]%string.

(** The same costs, the rows in the order in which the notebook displays
    them: facilities by name. *)
Definition displayed_transp_cost : pd.Series Key :=
  [ (("Baltimore", "Columbia"), 4.50); (("Baltimore", "Indianapolis"), 5.09);
    (("Baltimore", "Lexington"), 4.33); (("Baltimore", "Nashville"), 5.96);
    (("Baltimore", "Richmond"), 1.96); (("Baltimore", "St. Louis"), 7.30);
    (("Birmingham", "Columbia"), 3.33); (("Birmingham", "Indianapolis"), 4.33);
    (("Birmingham", "Lexington"), 3.38); (("Birmingham", "Nashville"), 1.53);
    (("Birmingham", "Richmond"), 5.95); (("Birmingham", "St. Louis"), 4.01);
    (("Charleston", "Columbia"), 3.02); (("Charleston", "Indianapolis"), 2.61);
    (("Charleston", "Lexington"), 1.61); (("Charleston", "Nashville"), 4.44);
    (("Charleston", "Richmond"), 2.36); (("Charleston", "St. Louis"), 4.60);
    (("Cleveland", "Columbia"), 2.43); (("Cleveland", "Indianapolis"), 2.37);
    (("Cleveland", "Lexington"), 2.54); (("Cleveland", "Nashville"), 4.13);
    (("Cleveland", "Richmond"), 3.20); (("Cleveland", "St. Louis"), 4.88);
    (("Little Rock", "Columbia"), 6.42); (("Little Rock", "Indianapolis"), 4.83);
    (("Little Rock", "Lexington"), 3.39); (("Little Rock", "Nashville"), 4.40);
    (("Little Rock", "Richmond"), 7.44); (("Little Rock", "St. Louis"), 2.92)
  ]%string.

Definition the_data : Data :=
  mkData the_production the_distribution the_transp_cost
         [180; 200; 140; 80; 180] [89; 95; 121; 101; 116; 181] 0.75.

(** The notebook's data with the cost rows in the displayed order. *)
Definition displayed_data : Data :=
  mkData the_production the_distribution displayed_transp_cost
         [180; 200; 140; 80; 180] [89; 95; 121; 101; 116; 181] 0.75.

(** *** What the second cell builds, in closed form *)

(** The pairs that get a variable, in the order [addVars] makes them. *)
Definition keys (d : Data) : list Key := list_prod (production d) (distribution d).

(** The objective coefficient [addVars] gives the pair [k]: the value of the
    cost Series at the position of [k] among the pairs. *)
Definition cost_of (d : Data) (k : Key) : Q :=
  get_or 0 (pd.loc Key_eqb (combine (keys d) (map snd (transp_cost d))) k).

(** The cost the table lists for the pair [k]: [transp_cost[k]]. *)
Definition table_cost (d : Data) (k : Key) : Q :=
  get_or 0 (pd.loc Key_eqb (transp_cost d) k).

Definition demand_of (d : Data) (l : string) : Q :=
  get_or 0 (s <- n_demand d ;; pd.loc String.eqb s l).

Definition capacity_of (d : Data) (p : string) : Q :=
  get_or 0 (s <- max_prod d ;; pd.loc String.eqb s p).

Definition prod_ship (d : Data) (k : Key) : gp.Var :=
  gp.mkVar "prod_ship" k 0 None (cost_of d k) gp.CONTINUOUS.

Definition meet_demand (d : Data) (l : string) : gp.Constr :=
  gp.mkConstr "meet_demand" l (map (fun p => (1, (p, l))) (production d))
              gp.GREATER_EQUAL (demand_of d l).

Definition widgets2_model (d : Data) : gp.Model :=
  gp.mkModel "widgets2" (map (prod_ship d) (keys d))
             (map (meet_demand d) (distribution d)).

Definition widgets2_x (d : Data) : gp.tupledict :=
  map (fun k => (k, prod_ship d k)) (keys d).

(** The inputs on which the notebook reaches the second model: the sets
    have no repeated name, the capacities are as many as the facilities, the
    demands as many as the locations and the costs as many as the pairs. *)
Definition well_formed (d : Data) : Prop :=
  NoDup (production d) /\ NoDup (distribution d) /\
  List.length (max_prod_values d) = List.length (production d) /\
  List.length (n_demand_values d) = List.length (distribution d) /\
  List.length (transp_cost d) = List.length (keys d).

(** Whether the pair [k] carries a shipment variable. *)
Definition in_keys (d : Data) (k : Key) : bool :=
  existsb (fun a => Key_eqb a k) (keys d).

(** What the run up to the second model asks of the data, no more: the
    capacities as many as the facilities, the demands as many as the
    locations and, where there is a pair at all, the costs as many as the
    pairs and no pair twice. *)
Definition reaches_m2 (d : Data) : Prop :=
  List.length (max_prod_values d) = List.length (production d) /\
  List.length (n_demand_values d) = List.length (distribution d) /\
  (keys d <> [] -> List.length (transp_cost d) = List.length (keys d)) /\
  NoDup (keys d).

Definition well_formedb (d : Data) : bool :=
  nodup_by String.eqb (production d) && nodup_by String.eqb (distribution d) &&
  Nat.eqb (List.length (max_prod_values d)) (List.length (production d)) &&
  Nat.eqb (List.length (n_demand_values d)) (List.length (distribution d)) &&
  Nat.eqb (List.length (transp_cost d)) (List.length (keys d)).

(** The cells of the first model in the order they run: the two Series, then
    [m].  Nothing in them inspects the sets, [frac], or the sign of a value. *)
Definition base_cells (d : Data) : result gp.Model :=
  _ <- max_prod d ;; _ <- n_demand d ;; Ok (m d).

(** *** Solving the second model by hand

    With demand constraints only, each location is served whole by a
    facility of least cost. *)

Fixpoint argmin (f : string -> Q) (best : string) (ps : list string) : string :=
  match ps with
  | [] => best
  | p :: ps' => argmin f (if Qle_bool (f best) (f p) then best else p) ps'
  end.

Definition cheapest (d : Data) (l : string) : string :=
  match production d with
  | [] => EmptyString
  | p :: ps => argmin (fun q => cost_of d (q, l)) p ps
  end.

Definition pos_part (q : Q) : Q := if Qle_bool 0 q then q else 0.

Definition cheapest_plan (d : Data) : gp.Solution :=
  fun k => if (cheapest d (snd k) =? fst k)%string
           then pos_part (demand_of d (snd k)) else 0.

(** What a plan pays to serve one location, and the least it can pay. *)
Definition served (d : Data) (X : gp.Solution) (l : string) : Q :=
  Qsum (fun p => cost_of d (p, l) * X (p, l)) (production d).

Definition least (d : Data) (l : string) : Q :=
  cost_of d (cheapest d l, l) * pos_part (demand_of d l).

(** A plan with [t] more units on the pair [k0]. *)
Definition more_on (k0 : Key) (t : Q) (X : gp.Solution) : gp.Solution :=
  fun k => X k + (if Key_eqb k0 k then t else 0).

(** The status the second model must end in, read off the data. *)
Definition expected_outcome (d : Data) : gp.Outcome :=
  match production d with
  | [] => if existsb (fun l => negb (Qle_bool (demand_of d l) 0)) (distribution d)
          then gp.INFEASIBLE
          else gp.OPTIMAL (fun _ => 0)
  | _ :: _ => if existsb (fun k => negb (Qle_bool 0 (cost_of d k))) (keys d)
              then gp.UNBOUNDED
              else gp.OPTIMAL (cheapest_plan d)
  end.


(** Everything shipped from one facility. *)
Definition all_from (d : Data) (p0 : string) : gp.Solution :=
  fun k => if (p0 =? fst k)%string then pos_part (demand_of d (snd k)) else 0.

(** *** Inputs the specification calls invalid *)

(** No facility, hence no pair and no cost row. *)
Definition no_facilities : Data :=
  mkData [] the_distribution [] [] [89; 95; 121; 101; 116; 181] 0.75.

Definition bad_numbers : Data :=
  mkData the_production the_distribution the_transp_cost
         [180; 200; 140; -80; 180] [89; 95; 121; 101; 116; 181] 2.

(** One facility, one location, and a negative cost between them. *)
Definition subsidised : Data :=
  mkData ["Cleveland"%string] ["Columbia"%string]
         [(("Cleveland", "Columbia")%string, -1)] [200] [89] 0.75.

(** The inputs for which the specification asks a configuration error. *)
Definition rejected_by_spec (d : Data) : Prop :=
  production d = [] \/ distribution d = [] \/
  ~ (0 <= frac d /\ frac d <= 1) \/
  Exists (fun v => v < 0) (max_prod_values d) \/
  Exists (fun v => v < 0) (n_demand_values d).

End Notebook.

(** ** The base formulation the notebook describes *)

Module Formulation.

Import Notebook.

(** Modelled from the spec: the constraint [can_produce[p]], total shipped out
    of [p] at most its capacity.  The notebook's cell for it is empty; the
    form is the one of section 4.1, [sum over locations <= max]. *)
Definition can_produce (d : Data) (p : string) : gp.Constr :=
  gp.mkConstr "can_produce" p (map (fun l => (1, (p, l))) (distribution d))
              gp.LESS_EQUAL (capacity_of d p).

(** Modelled from the spec: the constraint [must_produce[p]], total shipped
    out of [p] at least [frac] of its capacity.  The notebook's cell for it is
    empty; the form is the one of section 4.1, [sum over locations >= frac x max]. *)
Definition must_produce (d : Data) (p : string) : gp.Constr :=
  gp.mkConstr "must_produce" p (map (fun l => (1, (p, l))) (distribution d))
              gp.GREATER_EQUAL (frac d * capacity_of d p).

(** Modelled from the spec: the base model of section 4.1, shipment
    variables, demand constraints, the two capacity constraints per facility
    and the objective [sum cost x shipment].  The notebook leaves the cells
    that were to build it empty. *)
Definition base_model (d : Data) : gp.Model :=
  gp.mkModel "widgets" (map (prod_ship d) (keys d))
             (map (meet_demand d) (distribution d) ++
              map (can_produce d) (production d) ++
              map (must_produce d) (production d)).

Definition plan_of (t : list (Key * Q)) : gp.Solution :=
  fun k => match pd.dict_get Key_eqb t k with Some v => v | None => 0 end.

(** A shipment plan for the notebook's data. *)
Definition a_plan : gp.Solution :=
  plan_of
    [ (("Baltimore", "Columbia"), 89); (("Baltimore", "Indianapolis"), 71);
      (("Cleveland", "Indianapolis"), 24); (("Cleveland", "Lexington"), 121);
      (("Cleveland", "Nashville"), 35);
      (("Little Rock", "Nashville"), 66); (("Little Rock", "Richmond"), 59);
      (("Birmingham", "Richmond"), 57); (("Birmingham", "St. Louis"), 13);
      (("Charleston", "St. Louis"), 168) ]%string.

End Formulation.

(** ** Sums *)

Section Sums.
Context {A : Type}.
Implicit Types (f g : A -> Q) (l : list A).

Lemma Qsum_cons f a l : Qsum f (a :: l) = f a + Qsum f l.
Proof. reflexivity. Qed.

Lemma Qsum_ext_in f g l :
  (forall a, In a l -> f a == g a) -> Qsum f l == Qsum g l.
Proof.
  induction l as [|a l IH]; intros H; [reflexivity|].
  rewrite !Qsum_cons, (H a (or_introl eq_refl)), IH; [reflexivity|].
  intros b Hb; apply H; right; exact Hb.
Qed.

Lemma Qsum_le f g l :
  (forall a, In a l -> f a <= g a) -> Qsum f l <= Qsum g l.
Proof.
  induction l as [|a l IH]; intros H; [apply Qle_refl|].
  rewrite !Qsum_cons.
  apply Qplus_le_compat; [apply H; left; reflexivity|].
  apply IH; intros b Hb; apply H; right; exact Hb.
Qed.

Lemma Qsum_zero l : Qsum (fun _ : A => 0) l == 0.
Proof. induction l as [|a l IH]; [reflexivity|]. rewrite Qsum_cons, IH. lra. Qed.

Lemma Qsum_nonneg f l : (forall a, In a l -> 0 <= f a) -> 0 <= Qsum f l.
Proof.
  intros H. rewrite <- (Qsum_zero l). apply Qsum_le. exact H.
Qed.

Lemma Qsum_app f l l' : Qsum f (l ++ l') == Qsum f l + Qsum f l'.
Proof.
  induction l as [|a l IH]; simpl; [lra|].
  change (f a + Qsum f (l ++ l') == f a + Qsum f l + Qsum f l').
  rewrite IH. lra.
Qed.

Lemma Qsum_scal c f l : Qsum (fun a => c * f a) l == c * Qsum f l.
Proof.
  induction l as [|a l IH]; [simpl; lra|].
  rewrite !Qsum_cons, IH. lra.
Qed.

Lemma Qsum_plus f g l : Qsum (fun a => f a + g a) l == Qsum f l + Qsum g l.
Proof.
  induction l as [|a l IH]; [simpl; lra|].
  rewrite !Qsum_cons, IH. lra.
Qed.

Lemma Qsum_filter f (b : A -> bool) l :
  Qsum f (filter b l) == Qsum (fun a => if b a then f a else 0) l.
Proof.
  induction l as [|a l IH]; [reflexivity|].
  simpl filter. rewrite Qsum_cons. destruct (b a).
  - rewrite Qsum_cons, IH. reflexivity.
  - rewrite IH. lra.
Qed.

Lemma Qsum_perm f l l' : Permutation l l' -> Qsum f l == Qsum f l'.
Proof.
  induction 1 as [|a l l' _ IH|a b l|l l' l'' _ IH1 _ IH2].
  - reflexivity.
  - rewrite !Qsum_cons, IH. reflexivity.
  - rewrite !Qsum_cons. lra.
  - rewrite IH1. exact IH2.
Qed.
End Sums.

Lemma Qsum_swap {A B : Type} (h : A -> B -> Q) (l : list A) (l' : list B) :
  Qsum (fun a => Qsum (fun b => h a b) l') l ==
  Qsum (fun b => Qsum (fun a => h a b) l) l'.
Proof.
  induction l as [|a l IH].
  - transitivity (Qsum (fun _ : B => 0) l').
    + rewrite Qsum_zero. reflexivity.
    + apply Qsum_ext_in. intros b _. reflexivity.
  - rewrite Qsum_cons, IH.
    rewrite <- Qsum_plus. apply Qsum_ext_in. intros b _. reflexivity.
Qed.

Lemma Qsum_map {A B : Type} (f : B -> Q) (g : A -> B) (l : list A) :
  Qsum f (map g l) = Qsum (fun a => f (g a)) l.
Proof.
  induction l as [|a l IH]; [reflexivity|].
  simpl map. rewrite !Qsum_cons, IH. reflexivity.
Qed.

Lemma Qsum_list_prod {A B : Type} (f : A * B -> Q) (l : list A) (l' : list B) :
  Qsum f (list_prod l l') == Qsum (fun a => Qsum (fun b => f (a, b)) l') l.
Proof.
  induction l as [|a l IH]; [reflexivity|].
  simpl list_prod. rewrite Qsum_app, Qsum_map, IH. reflexivity.
Qed.

(** ** Keys and lookups *)

Lemma Key_eqb_eq (k k' : Key) : Key_eqb k k' = true <-> k = k'.
Proof.
  destruct k as [p l], k' as [p' l']. unfold Key_eqb. simpl.
  rewrite andb_true_iff, !String.eqb_eq. split.
  - intros [-> ->]. reflexivity.
  - intros E. injection E as -> ->. split; reflexivity.
Qed.

Lemma Key_eqb_refl (k : Key) : Key_eqb k k = true.
Proof. apply Key_eqb_eq. reflexivity. Qed.

Lemma existsb_Key_In (k : Key) (l : list Key) :
  existsb (Key_eqb k) l = true <-> In k l.
Proof.
  rewrite existsb_exists. split.
  - intros [k' [Hin E]]. apply Key_eqb_eq in E. subst. exact Hin.
  - intros Hin. exists k. split; [exact Hin | apply Key_eqb_refl].
Qed.

Lemma NoDup_list_prod {A B : Type} (l : list A) (l' : list B) :
  NoDup l -> NoDup l' -> NoDup (list_prod l l').
Proof.
  intros Hl Hl'. induction Hl as [|a l Ha Hl IH]; simpl; [constructor|].
  apply NoDup_app.
  - clear IH. induction Hl' as [|b l' Hb Hl' IH']; simpl; constructor.
    + rewrite in_map_iff. intros [b' [E Hin]]. injection E as ->. contradiction.
    + exact IH'.
  - exact IH.
  - intros [a' b'] H1 H2. apply in_map_iff in H1. destruct H1 as [b'' [E _]].
    injection E as -> _. apply in_prod_iff in H2. destruct H2 as [H2 _].
    contradiction.
Qed.

(** ** Fallible comprehensions *)

Lemma mapM_Ok {A B : Type} (f : A -> result B) (g : A -> B) (l : list A) :
  (forall a, In a l -> f a = Ok (g a)) -> mapM f l = Ok (map g l).
Proof.
  induction l as [|a l IH]; intros H; [reflexivity|].
  simpl. rewrite (H a (or_introl eq_refl)). simpl.
  rewrite IH; [reflexivity|].
  intros b Hb. apply H. right. exact Hb.
Qed.

Lemma mapM_inv {A B : Type} (f : A -> result B) (l : list A) (bs : list B) :
  mapM f l = Ok bs -> forall a, In a l -> exists b, f a = Ok b.
Proof.
  revert bs. induction l as [|a l IH]; intros bs H a' Hin; [destruct Hin|].
  simpl in H. destruct (f a) as [b|e] eqn:Ea; [|discriminate].
  simpl in H. destruct (mapM f l) as [bs'|e] eqn:El; [|discriminate].
  destruct Hin as [<-|Hin]; [exists b; exact Ea|].
  apply (IH bs' eq_refl a' Hin).
Qed.


Section Lookup.
Context {L : Type}.
Variable L_eqb : L -> L -> bool.
Hypothesis L_eqb_eq : forall a b, L_eqb a b = true <-> a = b.

Lemma loc_In (s : pd.Series L) (l : L) :
  In l (pd.index s) -> exists v, pd.loc L_eqb s l = Ok v.
Proof.
  induction s as [|[l' v] s IH]; simpl; [intros []|].
  intros [E|Hin].
  - subst l'. exists v. rewrite (proj2 (L_eqb_eq l l) eq_refl). reflexivity.
  - destruct (L_eqb l' l); [exists v; reflexivity | exact (IH Hin)].
Qed.

Lemma loc_inv (s : pd.Series L) (l : L) (v : Q) :
  pd.loc L_eqb s l = Ok v -> In (l, v) s.
Proof.
  induction s as [|[l' v'] s IH]; simpl; [discriminate|].
  destruct (L_eqb l' l) eqn:E.
  - intros H. injection H as ->. apply L_eqb_eq in E. subst. left. reflexivity.
  - intros H. right. exact (IH H).
Qed.

Lemma loc_NoDup (s : pd.Series L) (l : L) (v : Q) :
  NoDup (pd.index s) -> In (l, v) s -> pd.loc L_eqb s l = Ok v.
Proof.
  induction s as [|[l' v'] s IH]; simpl; [intros _ []|].
  intros Hnd [E|Hin].
  - injection E as -> ->. rewrite (proj2 (L_eqb_eq l l) eq_refl). reflexivity.
  - inversion Hnd as [|? ? Hnot Hnd']. subst.
    destruct (L_eqb l' l) eqn:E; [|exact (IH Hnd' Hin)].
    apply L_eqb_eq in E. subst l'. exfalso. apply Hnot.
    apply in_map_iff. exists (l, v). split; [reflexivity | exact Hin].
Qed.

Lemma dict_get_map (f : L -> Q) (ls : list L) (l : L) :
  pd.dict_get L_eqb (map (fun a => (a, f a)) ls) l =
  if existsb (fun a => L_eqb a l) ls then Some (f l) else None.
Proof.
  induction ls as [|a ls IH]; [reflexivity|].
  simpl. destruct (L_eqb a l) eqn:E; [|exact IH].
  apply L_eqb_eq in E. subst. reflexivity.
Qed.
End Lookup.

Lemma nodup_by_NoDup {A : Type} (eqb : A -> A -> bool) (l : list A) :
  (forall a b, eqb a b = true <-> a = b) -> nodup_by eqb l = true -> NoDup l.
Proof.
  intros Heqb. induction l as [|a l IH]; simpl; [constructor|].
  rewrite andb_true_iff, negb_true_iff. intros [Ha Hl].
  constructor; [|exact (IH Hl)].
  intros Hin. rewrite <- not_true_iff_false in Ha. apply Ha.
  apply existsb_exists. exists a. split; [exact Hin | apply Heqb; reflexivity].
Qed.

Lemma NoDup_nodup_by {A : Type} (eqb : A -> A -> bool) (l : list A) :
  (forall a b, eqb a b = true <-> a = b) -> NoDup l -> nodup_by eqb l = true.
Proof.
  intros Heqb. induction 1 as [|a l Hnot Hnd IH]; simpl; [reflexivity|].
  rewrite IH, andb_true_r. apply negb_true_iff.
  destruct (existsb (eqb a) l) eqn:E; [|reflexivity].
  apply existsb_exists in E. destruct E as [b [Hb Hab]].
  apply Heqb in Hab. subst. contradiction.
Qed.

Lemma index_combine {L : Type} (labels : list L) (values : list Q) :
  List.length values = List.length labels ->
  pd.index (combine labels values) = labels.
Proof.
  revert values. induction labels as [|a labels IH]; intros [|v values] H;
    try discriminate; [reflexivity|].
  simpl. f_equal. apply IH. simpl in H. lia.
Qed.

Lemma getitem_map (f : Key -> gp.Var) (ks : list Key) (k : Key) :
  In k ks -> gp.getitem (map (fun a => (a, f a)) ks) k = Ok (f k).
Proof.
  induction ks as [|a ks IH]; simpl; [intros []|].
  intros Hin. destruct (Key_eqb a k) eqn:E.
  - apply Key_eqb_eq in E. subst. reflexivity.
  - destruct Hin as [->|Hin]; [rewrite Key_eqb_refl in E; discriminate|].
    exact (IH Hin).
Qed.

Lemma combine_lookup (ks : list Key) (vals : list Q) (k : Key) (c : Q) :
  NoDup ks -> List.length vals = List.length ks ->
  In (k, c) (combine ks vals) -> pd.loc Key_eqb (combine ks vals) k = Ok c.
Proof.
  intros Hnd Hlen Hin. apply (loc_NoDup Key_eqb Key_eqb_eq); [|exact Hin].
  rewrite (index_combine ks vals Hlen). exact Hnd.
Qed.

Lemma map_combine_lookup {B : Type} (g : Key -> Q -> B) (ks : list Key)
    (vals : list Q) :
  NoDup ks -> List.length vals = List.length ks ->
  map (fun kc => g (fst kc) (snd kc)) (combine ks vals) =
  map (fun k => g k (get_or 0 (pd.loc Key_eqb (combine ks vals) k))) ks.
Proof.
  intros Hnd Hlen.
  transitivity (map (fun kc => g (fst kc)
                                 (get_or 0 (pd.loc Key_eqb (combine ks vals) (fst kc))))
                    (combine ks vals)).
  - apply map_ext_in. intros [k c] Hin. simpl.
    rewrite (combine_lookup ks vals k c Hnd Hlen Hin). reflexivity.
  - rewrite <- (map_map fst (fun k => g k (get_or 0 (pd.loc Key_eqb (combine ks vals) k)))).
    pose proof (index_combine ks vals Hlen) as E. unfold pd.index in E.
    rewrite E. reflexivity.
Qed.

(** ** The second model in closed form *)

Module Closed.
Import Notebook.

Lemma max_prod_Ok (d : Data) :
  List.length (max_prod_values d) = List.length (production d) ->
  max_prod d = Ok (combine (production d) (max_prod_values d)).
Proof.
  intros H. unfold max_prod, pd.Series_. rewrite H, Nat.eqb_refl. reflexivity.
Qed.

Lemma max_prod_inv (d : Data) (s : pd.Series string) :
  max_prod d = Ok s ->
  List.length (max_prod_values d) = List.length (production d).
Proof.
  unfold max_prod, pd.Series_.
  destruct (Nat.eqb _ _) eqn:E; [|discriminate].
  intros _. apply Nat.eqb_eq. exact E.
Qed.

Lemma n_demand_Ok (d : Data) :
  List.length (n_demand_values d) = List.length (distribution d) ->
  n_demand d = Ok (combine (distribution d) (n_demand_values d)).
Proof.
  intros H. unfold n_demand, pd.Series_. rewrite H, Nat.eqb_refl. reflexivity.
Qed.

Lemma n_demand_inv (d : Data) (s : pd.Series string) :
  n_demand d = Ok s ->
  List.length (n_demand_values d) = List.length (distribution d).
Proof.
  unfold n_demand, pd.Series_.
  destruct (Nat.eqb _ _) eqn:E; [|discriminate].
  intros _. apply Nat.eqb_eq. exact E.
Qed.

Lemma cell_4_Ok (d : Data) :
  List.length (max_prod_values d) = List.length (production d) ->
  List.length (n_demand_values d) = List.length (distribution d) ->
  cell_4 d = Ok (combine (production d) (max_prod_values d),
                 combine (distribution d) (n_demand_values d)).
Proof.
  intros HP HD. unfold cell_4. rewrite (max_prod_Ok d HP), (n_demand_Ok d HD).
  reflexivity.
Qed.

Lemma cell_4_inv (d : Data) (series : pd.Series string * pd.Series string) :
  cell_4 d = Ok series ->
  List.length (max_prod_values d) = List.length (production d) /\
  List.length (n_demand_values d) = List.length (distribution d).
Proof.
  unfold cell_4. destruct (max_prod d) as [caps|e] eqn:Ec; [|discriminate].
  destruct (n_demand d) as [dem|e] eqn:Ed; [|discriminate]. intros _.
  split; [exact (max_prod_inv d caps Ec) | exact (n_demand_inv d dem Ed)].
Qed.

Lemma demand_lookup (d : Data) (l : string) :
  List.length (n_demand_values d) = List.length (distribution d) ->
  In l (distribution d) ->
  pd.loc String.eqb (combine (distribution d) (n_demand_values d)) l =
  Ok (demand_of d l).
Proof.
  intros Hlen Hin. unfold demand_of. rewrite (n_demand_Ok d Hlen). simpl.
  destruct (loc_In String.eqb String.eqb_eq
              (combine (distribution d) (n_demand_values d)) l) as [v Hv].
  - rewrite index_combine; assumption.
  - rewrite Hv. reflexivity.
Qed.

Lemma addVars_Ok (d : Data) :
  (keys d <> [] -> List.length (transp_cost d) = List.length (keys d)) ->
  NoDup (keys d) ->
  gp.addVars (gp.Model_ "widgets2") (production d) (distribution d)
             (transp_cost d) "prod_ship" =
  Ok (gp.mkModel "widgets2" (map (prod_ship d) (keys d)) [], widgets2_x d).
Proof.
  intros Hlen Hnd. unfold gp.addVars. fold (keys d). cbv zeta.
  assert (Hw : widgets2_x d = map (fun k => (k, prod_ship d k)) (keys d))
    by reflexivity.
  destruct (keys d) as [|k0 ks] eqn:Ek.
  - rewrite Hw. reflexivity.
  - clear Hw. cbv iota. rewrite <- Ek in Hlen, Hnd |- *.
    assert (Hl : List.length (transp_cost d) = List.length (keys d))
      by (apply Hlen; rewrite Ek; discriminate).
    rewrite Hl, Nat.eqb_refl. simpl negb.
    rewrite (NoDup_nodup_by Key_eqb (keys d) Key_eqb_eq Hnd). simpl negb.
    assert (Hv : List.length (map snd (transp_cost d)) = List.length (keys d))
      by (rewrite length_map; exact Hl).
    pose proof (map_combine_lookup
                  (fun k c => (k, gp.mkVar "prod_ship" k 0 None c gp.CONTINUOUS))
                  (keys d) (map snd (transp_cost d)) Hnd Hv) as E.
    cbv beta iota zeta.
    match goal with
    | |- Ok (_, ?vs) = _ => assert (E0 : vs = widgets2_x d) by exact E
    end.
    rewrite E0. unfold widgets2_x. simpl. rewrite map_map. reflexivity.
Qed.

Lemma addVars_inv (d : Data) (r : gp.Model * gp.tupledict) :
  gp.addVars (gp.Model_ "widgets2") (production d) (distribution d)
             (transp_cost d) "prod_ship" = Ok r ->
  (keys d <> [] -> List.length (transp_cost d) = List.length (keys d)) /\
  NoDup (keys d).
Proof.
  unfold gp.addVars, keys. cbv zeta.
  destruct (list_prod (production d) (distribution d)) as [|k0 ks] eqn:Ek.
  - intros _. split; [intros H; exfalso; apply H; reflexivity | constructor].
  - destruct (Nat.eqb _ _) eqn:El; [|discriminate].
    destruct (nodup_by Key_eqb _) eqn:En; [|discriminate].
    intros _. split; [intros _; apply Nat.eqb_eq; exact El|].
    exact (nodup_by_NoDup Key_eqb _ Key_eqb_eq En).
Qed.

Lemma cell_33_closed (d : Data) :
  List.length (n_demand_values d) = List.length (distribution d) ->
  (keys d <> [] -> List.length (transp_cost d) = List.length (keys d)) ->
  NoDup (keys d) ->
  cell_33 d (combine (distribution d) (n_demand_values d)) =
  Ok (widgets2_model d, widgets2_x d).
Proof.
  intros Hlen Hcost Hnd. unfold cell_33.
  rewrite (addVars_Ok d Hcost Hnd). simpl bind at 1. simpl snd. simpl fst.
  rewrite (mapM_Ok _ (fun l => (l, gp.ge (map (fun p => (1, (p, l))) (production d))
                                         (demand_of d l)))
                   (distribution d)).
  2:{ intros l Hl.
      rewrite (mapM_Ok _ (fun p => prod_ship d (p, l)) (production d)).
      2:{ intros p Hp. apply getitem_map. apply in_prod; assumption. }
      simpl. rewrite (demand_lookup d l Hlen Hl). simpl.
      unfold gp.quicksum. rewrite map_map. reflexivity. }
  simpl. unfold widgets2_model, gp.addConstrs. simpl.
  rewrite !map_map. reflexivity.
Qed.

Lemma widgets2_closed (d : Data) :
  reaches_m2 d -> widgets2 d = Ok (widgets2_model d, widgets2_x d).
Proof.
  intros (HP & HD & Hcost & Hnd). unfold widgets2.
  rewrite (cell_4_Ok d HP HD). simpl bind. simpl snd.
  exact (cell_33_closed d HD Hcost Hnd).
Qed.

Lemma widgets2_runs (d : Data) (r : gp.Model * gp.tupledict) :
  widgets2 d = Ok r -> reaches_m2 d.
Proof.
  unfold widgets2. intros H.
  destruct (cell_4 d) as [series|e] eqn:E4; [|discriminate].
  destruct (cell_4_inv d series E4) as [HP HD].
  simpl in H. unfold cell_33 in H.
  destruct (gp.addVars _ _ _ _ _) as [mx|e] eqn:Ev; [|discriminate].
  destruct (addVars_inv d mx Ev) as [Hcost Hnd].
  split; [exact HP|]. split; [exact HD|]. split; [exact Hcost | exact Hnd].
Qed.

Lemma widgets2_inv (d : Data) (M : gp.Model) (xs : gp.tupledict) :
  widgets2 d = Ok (M, xs) -> M = widgets2_model d /\ xs = widgets2_x d.
Proof.
  intros H. pose proof (widgets2_runs d _ H) as Hr.
  rewrite (widgets2_closed d Hr) in H. injection H as <- <-.
  split; reflexivity.
Qed.

Lemma m2_inv (d : Data) (M : gp.Model) : m2 d = Ok M -> M = widgets2_model d.
Proof.
  unfold m2. destruct (widgets2 d) as [[M' xs]|e] eqn:E; [|discriminate].
  simpl. intros H. injection H as <-. exact (proj1 (widgets2_inv d _ _ E)).
Qed.

Lemma m2_runs (d : Data) (M : gp.Model) : m2 d = Ok M -> reaches_m2 d.
Proof.
  unfold m2. destruct (widgets2 d) as [r|e] eqn:E; [|discriminate].
  intros _. exact (widgets2_runs d r E).
Qed.

Lemma well_formed_reaches (d : Data) : well_formed d -> reaches_m2 d.
Proof.
  intros (HP & HD & Hc & Hn & Ht).
  split; [exact Hc|]. split; [exact Hn|]. split; [intros _; exact Ht|].
  apply NoDup_list_prod; assumption.
Qed.

Lemma m2_well_formed (d : Data) : well_formed d -> m2 d = Ok (widgets2_model d).
Proof.
  intros H. unfold m2.
  rewrite (widgets2_closed d (well_formed_reaches d H)). reflexivity.
Qed.

End Closed.

(** ** Feasibility, and the statuses of [optimize] *)

Module Solver.
Import gp.

Lemma Qle_bool_false (a b : Q) : Qle_bool a b = false <-> b < a.
Proof.
  rewrite <- not_true_iff_false, Qle_bool_iff. split.
  - apply Qnot_le_lt.
  - apply Qlt_not_le.
Qed.

Lemma var_okb_iff (X : Solution) (v : Var) : var_okb X v = true <-> var_ok X v.
Proof.
  unfold var_okb, var_ok. rewrite !andb_true_iff, Qle_bool_iff.
  destruct (UB v) as [u|], (VType_ v);
    rewrite ?orb_true_iff, ?Qle_bool_iff, ?Qeq_bool_iff; unfold is_integral;
    intuition.
Qed.

Lemma constr_okb_iff (X : Solution) (c : Constr) :
  constr_okb X c = true <-> constr_ok X c.
Proof.
  unfold constr_okb, constr_ok.
  destruct (Sense_ c); rewrite ?Qle_bool_iff, ?Qeq_bool_iff; reflexivity.
Qed.

Lemma feasibleb_iff (M : Model) (X : Solution) :
  feasibleb M X = true <-> feasible M X.
Proof.
  unfold feasibleb, feasible.
  rewrite andb_true_iff, !forallb_forall, !Forall_forall.
  split; intros [Hv Hc]; split; intros a Ha.
  - apply var_okb_iff, Hv, Ha.
  - apply constr_okb_iff, Hc, Ha.
  - apply var_okb_iff, Hv, Ha.
  - apply constr_okb_iff, Hc, Ha.
Qed.

Lemma getValue_plus (e : LinExpr) (X r : Solution) :
  getValue e (fun k => X k + r k) == getValue e X + getValue e r.
Proof.
  unfold getValue. rewrite <- Qsum_plus. apply Qsum_ext_in.
  intros t _. simpl. lra.
Qed.

Lemma is_integral_plus (a b : Q) :
  is_integral a -> is_integral b -> is_integral (a + b).
Proof.
  unfold is_integral. intros Ha Hb.
  assert (E : a + b == inject_Z (Qfloor a + Qfloor b)).
  { rewrite inject_Z_plus, Ha, Hb. reflexivity. }
  rewrite E at 1. rewrite Qfloor_Z. symmetry. exact E.
Qed.

(** Following a ray from a feasible point stays feasible. *)
Lemma ray_step (M : Model) (X r : Solution) :
  feasible M X -> improving_ray M r ->
  feasible M (fun k => X k + r k) /\
  ObjVal M (fun k => X k + r k) < ObjVal M X.
Proof.
  intros [Hv Hc] (Rv & Rc & Robj). split; [split|].
  - rewrite Forall_forall in *. intros v Hin.
    destruct (Hv v Hin) as (Hl & Hu & Ht), (Rv v Hin) as (Rl & Ru & Rt).
    unfold var_ok. split; [lra|]. split.
    + destruct (UB v); [lra | exact I].
    + destruct (VType_ v).
      * exact I.
      * destruct Ht as [Ht|Ht]; [left | right]; lra.
      * apply is_integral_plus; assumption.
  - rewrite Forall_forall in *. intros c Hin.
    specialize (Hc c Hin). specialize (Rc c Hin).
    unfold constr_ok, ray_constr_ok in *.
    destruct (Sense_ c); rewrite getValue_plus; lra.
  - unfold ObjVal in *. rewrite getValue_plus. lra.
Qed.

(** Where an optimal solution exists, [optimize] can end on no other
    status. *)
Lemma optimum_only (M : Model) (X : Solution) (o : Outcome) :
  optimal M X -> optimize M o -> exists X', o = OPTIMAL X'.
Proof.
  intros [HX Hmin] Ho. destruct o as [X'| | |]; simpl in Ho.
  - exists X'. reflexivity.
  - exfalso. exact (Ho X HX).
  - exfalso. destruct Ho as [r Hr].
    destruct (ray_step M X r HX Hr) as [Hf Hlt]. specialize (Hmin _ Hf). lra.
  - exfalso. destruct Ho as [r Hr].
    destruct (ray_step M X r HX Hr) as [Hf Hlt]. specialize (Hmin _ Hf). lra.
Qed.

(** Without a variable there is no ray. *)
Lemma no_vars_no_ray (M : Model) (r : Solution) :
  Vars M = [] -> ~ improving_ray M r.
Proof.
  intros E (_ & _ & Hobj). unfold ObjVal, getObjective in Hobj.
  rewrite E in Hobj. simpl in Hobj. unfold getValue in Hobj. simpl in Hobj. lra.
Qed.

(** A feasible model whose objective falls without end has no optimum. *)
Lemma unbounded_no_optimum (M : Model) (X : Solution) :
  unbounded M -> ~ optimal M X.
Proof.
  intros [_ Hray] [_ Hmin]. destruct (Hray (ObjVal M X)) as [Y [HY Hlt]].
  specialize (Hmin Y HY). lra.
Qed.

(** A model without variables and constraints: every assignment is optimal,
    at objective value 0. *)
Lemma empty_model_optimal (name : string) (X : Solution) :
  optimal (Model_ name) X /\ ObjVal (Model_ name) X == 0.
Proof.
  split; [split|].
  - split; constructor.
  - intros X' _. apply Qle_refl.
  - reflexivity.
Qed.

End Solver.

Module Widgets2.
Import Notebook gp.

Lemma meet_demand_value (d : Data) (X : Solution) (l : string) :
  getValue (Lhs (meet_demand d l)) X == ship_in d X l.
Proof.
  unfold getValue, ship_in. simpl Lhs. rewrite Qsum_map.
  apply Qsum_ext_in. intros p _. simpl. lra.
Qed.

Lemma feasible_iff (d : Data) (X : Solution) :
  feasible (widgets2_model d) X <->
  (forall k, In k (keys d) -> 0 <= X k) /\
  (forall l, In l (distribution d) -> demand_of d l <= ship_in d X l).
Proof.
  unfold feasible, widgets2_model. simpl Vars. simpl Constrs.
  rewrite !Forall_forall. split; intros [Hv Hc]; split.
  - intros k Hk.
    destruct (Hv (prod_ship d k) (in_map _ _ _ Hk)) as [H _]. exact H.
  - intros l Hl. specialize (Hc (meet_demand d l) (in_map _ _ _ Hl)).
    change (demand_of d l <= getValue (Lhs (meet_demand d l)) X) in Hc.
    rewrite meet_demand_value in Hc. exact Hc.
  - intros v Hin. apply in_map_iff in Hin. destruct Hin as [k [<- Hk]].
    unfold var_ok. simpl. auto.
  - intros c Hin. apply in_map_iff in Hin. destruct Hin as [l [<- Hl]].
    change (demand_of d l <= getValue (Lhs (meet_demand d l)) X).
    rewrite meet_demand_value. exact (Hc l Hl).
Qed.

Lemma ObjVal_closed (d : Data) (X : Solution) :
  ObjVal (widgets2_model d) X == Qsum (fun k => cost_of d k * X k) (keys d).
Proof.
  unfold ObjVal, getValue, getObjective, widgets2_model. simpl Vars.
  rewrite map_map, Qsum_map. reflexivity.
Qed.

Lemma ObjVal_by_location (d : Data) (X : Solution) :
  ObjVal (widgets2_model d) X ==
  Qsum (fun l => Qsum (fun p => cost_of d (p, l) * X (p, l)) (production d))
       (distribution d).
Proof.
  rewrite ObjVal_closed. unfold keys.
  etransitivity; [apply (Qsum_list_prod (fun k : string * string => cost_of d k * X k))|].
  apply Qsum_swap.
Qed.

End Widgets2.

Section Pick.
Variable L : Type.
Variable L_eqb : L -> L -> bool.
Hypothesis L_eqb_eq : forall a b, L_eqb a b = true <-> a = b.

Lemma Qsum_pick_out (g : L -> Q) (a0 : L) (l : list L) :
  ~ In a0 l -> Qsum (fun a => if L_eqb a0 a then g a else 0) l == 0.
Proof.
  induction l as [|a l IH]; intros Hnot; [reflexivity|].
  rewrite Qsum_cons, IH.
  - destruct (L_eqb a0 a) eqn:E; [|lra].
    apply L_eqb_eq in E. subst. exfalso. apply Hnot. left. reflexivity.
  - intros Hin. apply Hnot. right. exact Hin.
Qed.

Lemma Qsum_pick (g : L -> Q) (a0 : L) (l : list L) :
  NoDup l -> In a0 l -> Qsum (fun a => if L_eqb a0 a then g a else 0) l == g a0.
Proof.
  induction 1 as [|a l Hnot Hnd IH]; intros Hin; [destruct Hin|].
  rewrite Qsum_cons. destruct Hin as [->|Hin].
  - rewrite (proj2 (L_eqb_eq a0 a0) eq_refl), (Qsum_pick_out g a0 l Hnot). lra.
  - destruct (L_eqb a0 a) eqn:E.
    + apply L_eqb_eq in E. subst. contradiction.
    + rewrite (IH Hin). lra.
Qed.
End Pick.

Module Plan.
Import Notebook gp.

Lemma pos_part_ge (q : Q) : q <= pos_part q /\ 0 <= pos_part q.
Proof.
  unfold pos_part. destruct (Qle_bool 0 q) eqn:E.
  - apply Qle_bool_iff in E. split; lra.
  - apply Solver.Qle_bool_false in E. split; lra.
Qed.

Lemma pos_part_least (q r : Q) : q <= r -> 0 <= r -> pos_part q <= r.
Proof. unfold pos_part. destruct (Qle_bool 0 q); intros; assumption. Qed.

Lemma argmin_spec (f : string -> Q) (ps : list string) (b : string) :
  In (argmin f b ps) (b :: ps) /\
  forall p, In p (b :: ps) -> f (argmin f b ps) <= f p.
Proof.
  revert b. induction ps as [|p ps IH]; intros b.
  - simpl. split; [left; reflexivity|]. intros q [<-|[]]. apply Qle_refl.
  - simpl argmin.
    destruct (IH (if Qle_bool (f b) (f p) then b else p)) as [Hin Hmin].
    destruct (Qle_bool (f b) (f p)) eqn:E.
    + apply Qle_bool_iff in E. split.
      * destruct Hin as [<-|Hin]; [left; reflexivity | right; right; exact Hin].
      * intros q [<-|[<-|Hq]].
        -- apply Hmin. left. reflexivity.
        -- apply Qle_trans with (f b); [apply Hmin; left; reflexivity | exact E].
        -- apply Hmin. right. exact Hq.
    + apply Solver.Qle_bool_false in E. split.
      * destruct Hin as [<-|Hin]; [right; left; reflexivity | right; right; exact Hin].
      * intros q [<-|[<-|Hq]].
        -- apply Qle_trans with (f p); [apply Hmin; left; reflexivity | lra].
        -- apply Hmin. left. reflexivity.
        -- apply Hmin. right. exact Hq.
Qed.

Lemma cheapest_spec (d : Data) (l : string) :
  production d <> [] ->
  In (cheapest d l) (production d) /\
  forall p, In p (production d) -> cost_of d (cheapest d l, l) <= cost_of d (p, l).
Proof.
  unfold cheapest. destruct (production d) as [|p ps]; [congruence|].
  intros _. exact (argmin_spec (fun q => cost_of d (q, l)) ps p).
Qed.

Lemma ship_in_cheapest (d : Data) (l : string) :
  NoDup (production d) -> production d <> [] ->
  ship_in d (cheapest_plan d) l == pos_part (demand_of d l).
Proof.
  intros Hnd Hne. unfold ship_in, cheapest_plan. simpl.
  apply (Qsum_pick string String.eqb String.eqb_eq
                    (fun _ => pos_part (demand_of d l)) (cheapest d l) _ Hnd).
  apply cheapest_spec. exact Hne.
Qed.

Lemma cheapest_plan_nonneg (d : Data) (k : Key) : 0 <= cheapest_plan d k.
Proof.
  unfold cheapest_plan. destruct (_ =? _)%string; [apply pos_part_ge | apply Qle_refl].
Qed.

Lemma cheapest_plan_feasible (d : Data) :
  NoDup (production d) -> production d <> [] ->
  feasible (widgets2_model d) (cheapest_plan d).
Proof.
  intros Hnd Hne. apply Widgets2.feasible_iff. split.
  - intros k _. apply cheapest_plan_nonneg.
  - intros l _. rewrite (ship_in_cheapest d l Hnd Hne). apply pos_part_ge.
Qed.

(** The least cost of serving the demands. *)
Lemma cheapest_plan_cost (d : Data) :
  NoDup (production d) -> production d <> [] ->
  ObjVal (widgets2_model d) (cheapest_plan d) ==
  Qsum (fun l => cost_of d (cheapest d l, l) * pos_part (demand_of d l))
       (distribution d).
Proof.
  intros Hnd Hne. rewrite Widgets2.ObjVal_by_location.
  apply Qsum_ext_in. intros l _.
  rewrite <- (Qsum_pick string String.eqb String.eqb_eq
                (fun p => cost_of d (p, l) * pos_part (demand_of d l))
                (cheapest d l) _ Hnd (proj1 (cheapest_spec d l Hne))).
  apply Qsum_ext_in. intros p _. unfold cheapest_plan. simpl.
  destruct (cheapest d l =? p)%string; lra.
Qed.

Lemma cost_lower_bound (d : Data) (X : Solution) :
  production d <> [] ->
  (forall k, In k (keys d) -> 0 <= cost_of d k) ->
  feasible (widgets2_model d) X ->
  Qsum (fun l => cost_of d (cheapest d l, l) * pos_part (demand_of d l))
       (distribution d) <= ObjVal (widgets2_model d) X.
Proof.
  intros Hne Hcost HX. apply Widgets2.feasible_iff in HX. destruct HX as [Hpos Hdem].
  rewrite Widgets2.ObjVal_by_location. apply Qsum_le. intros l Hl.
  destruct (cheapest_spec d l Hne) as [Hin Hmin].
  apply Qle_trans with (cost_of d (cheapest d l, l) * ship_in d X l).
  - assert (Hc : 0 <= cost_of d (cheapest d l, l)).
    { apply Hcost. apply in_prod; assumption. }
    assert (Hs : pos_part (demand_of d l) <= ship_in d X l).
    { apply pos_part_least; [exact (Hdem l Hl)|].
      apply Qsum_nonneg. intros p Hp. apply Hpos. apply in_prod; assumption. }
    rewrite !(Qmult_comm (cost_of d (cheapest d l, l))).
    apply Qmult_le_compat_r; assumption.
  - unfold ship_in. rewrite <- Qsum_scal. apply Qsum_le. intros p Hp.
    apply Qmult_le_compat_r; [exact (Hmin p Hp)|].
    apply Hpos. apply in_prod; assumption.
Qed.

Lemma cheapest_plan_optimal (d : Data) :
  NoDup (production d) -> production d <> [] ->
  (forall k, In k (keys d) -> 0 <= cost_of d k) ->
  optimal (widgets2_model d) (cheapest_plan d).
Proof.
  intros Hnd Hne Hcost. split; [exact (cheapest_plan_feasible d Hnd Hne)|].
  intros X' HX'. rewrite (cheapest_plan_cost d Hnd Hne).
  exact (cost_lower_bound d X' Hne Hcost HX').
Qed.

End Plan.

Module Ray.
Import Notebook gp.

Lemma more_on_feasible (d : Data) (k0 : Key) (t : Q) (X : Solution) :
  0 <= t -> feasible (widgets2_model d) X ->
  feasible (widgets2_model d) (more_on k0 t X).
Proof.
  intros Ht HX. apply Widgets2.feasible_iff in HX. destruct HX as [Hpos Hdem].
  apply Widgets2.feasible_iff. split.
  - intros k Hk. unfold more_on. specialize (Hpos k Hk).
    destruct (Key_eqb k0 k); lra.
  - intros l Hl. apply Qle_trans with (ship_in d X l); [exact (Hdem l Hl)|].
    unfold ship_in. apply Qsum_le. intros p _. unfold more_on.
    destruct (Key_eqb k0 (p, l)); lra.
Qed.

Lemma more_on_cost (d : Data) (k0 : Key) (t : Q) (X : Solution) :
  NoDup (keys d) -> In k0 (keys d) ->
  ObjVal (widgets2_model d) (more_on k0 t X) ==
  ObjVal (widgets2_model d) X + cost_of d k0 * t.
Proof.
  intros Hnd Hin. rewrite !Widgets2.ObjVal_closed.
  rewrite <- (Qsum_pick Key Key_eqb Key_eqb_eq (fun k => cost_of d k * t) k0
                        (keys d) Hnd Hin).
  rewrite <- Qsum_plus. apply Qsum_ext_in. intros k _. unfold more_on.
  destruct (Key_eqb k0 k); lra.
Qed.

(** A pair of negative cost lets the objective fall without end. *)
Lemma negative_cost_unbounded (d : Data) (k0 : Key) :
  NoDup (production d) -> NoDup (distribution d) -> production d <> [] ->
  In k0 (keys d) -> cost_of d k0 < 0 -> unbounded (widgets2_model d).
Proof.
  intros HP HD Hne Hin Hneg.
  pose proof (Plan.cheapest_plan_feasible d HP Hne) as Hfeas.
  split; [exists (cheapest_plan d); exact Hfeas|].
  intros bound.
  set (V := ObjVal (widgets2_model d) (cheapest_plan d)).
  set (a := if Qle_bool bound V then V - bound + 1 else 1).
  assert (Ha : 0 < a /\ V - a < bound).
  { unfold a. destruct (Qle_bool bound V) eqn:E.
    - apply Qle_bool_iff in E. split; lra.
    - apply Solver.Qle_bool_false in E. split; lra. }
  assert (Hc : 0 < - cost_of d k0) by lra.
  assert (Ht : 0 <= a / - cost_of d k0).
  { apply Qlt_le_weak. apply Qlt_shift_div_l; [exact Hc|]. lra. }
  exists (more_on k0 (a / - cost_of d k0) (cheapest_plan d)). split.
  - apply more_on_feasible; assumption.
  - rewrite (more_on_cost d k0 _ _ (NoDup_list_prod _ _ HP HD) Hin).
    fold V.
    assert (E : cost_of d k0 * (a / - cost_of d k0) == - a).
    { field. lra. }
    rewrite E. lra.
Qed.

Lemma no_facility_infeasible (d : Data) (l : string) :
  production d = [] -> In l (distribution d) -> 0 < demand_of d l ->
  infeasible (widgets2_model d).
Proof.
  intros HP Hl Hpos X HX. apply Widgets2.feasible_iff in HX.
  destruct HX as [_ Hdem]. specialize (Hdem l Hl).
  unfold ship_in in Hdem. rewrite HP in Hdem. simpl in Hdem. lra.
Qed.

Lemma no_facility_optimal (d : Data) (X : Solution) :
  production d = [] ->
  (forall l, In l (distribution d) -> demand_of d l <= 0) ->
  optimal (widgets2_model d) X /\ ObjVal (widgets2_model d) X == 0.
Proof.
  intros HP Hdem.
  assert (Hobj : forall Y, ObjVal (widgets2_model d) Y == 0).
  { intros Y. rewrite Widgets2.ObjVal_closed. unfold keys. rewrite HP. reflexivity. }
  split; [split|apply Hobj].
  - apply Widgets2.feasible_iff. split.
    + unfold keys. rewrite HP. intros k [].
    + intros l Hl. unfold ship_in. rewrite HP. exact (Hdem l Hl).
  - intros X' _. rewrite !Hobj. apply Qle_refl.
Qed.

(** A pair of negative cost is itself a ray. *)
Lemma negative_cost_ray (d : Data) (k0 : Key) :
  NoDup (keys d) -> In k0 (keys d) -> cost_of d k0 < 0 ->
  improving_ray (widgets2_model d) (fun k => if Key_eqb k0 k then 1 else 0).
Proof.
  intros Hnd Hin Hneg. split; [|split].
  - apply Forall_forall. intros v Hv. apply in_map_iff in Hv.
    destruct Hv as [k [<- _]]. unfold ray_var_ok. simpl.
    split; [|split; exact I]. destruct (Key_eqb k0 k); lra.
  - apply Forall_forall. intros c Hc. apply in_map_iff in Hc.
    destruct Hc as [l [<- _]].
    change (0 <= getValue (Lhs (meet_demand d l))
                          (fun k => if Key_eqb k0 k then 1 else 0)).
    rewrite Widgets2.meet_demand_value. apply Qsum_nonneg.
    intros p _. destruct (Key_eqb k0 (p, l)); lra.
  - rewrite Widgets2.ObjVal_closed.
    rewrite (Qsum_ext_in _ (fun k => if Key_eqb k0 k then cost_of d k else 0)).
    + rewrite (Qsum_pick Key Key_eqb Key_eqb_eq (cost_of d) k0 (keys d) Hnd Hin).
      exact Hneg.
    + intros k _. destruct (Key_eqb k0 k); lra.
Qed.

(** Costs that are not negative leave no ray. *)
Lemma nonneg_costs_no_ray (d : Data) (r : Solution) :
  (forall k, In k (keys d) -> 0 <= cost_of d k) ->
  ~ improving_ray (widgets2_model d) r.
Proof.
  intros Hcost (Hv & _ & Hobj). rewrite Widgets2.ObjVal_closed in Hobj.
  assert (H : 0 <= Qsum (fun k => cost_of d k * r k) (keys d)).
  { apply Qsum_nonneg. intros k Hk. apply Qmult_le_0_compat; [exact (Hcost k Hk)|].
    rewrite Forall_forall in Hv.
    destruct (Hv (prod_ship d k) (in_map _ _ _ Hk)) as [Hr _]. exact Hr. }
  lra.
Qed.

Lemma costs_decided (d : Data) :
  existsb (fun k => negb (Qle_bool 0 (cost_of d k))) (keys d) = false ->
  forall k, In k (keys d) -> 0 <= cost_of d k.
Proof.
  intros E k Hk. apply Qle_bool_iff.
  destruct (Qle_bool 0 (cost_of d k)) eqn:Ek; [reflexivity|].
  rewrite <- E. apply existsb_exists. exists k.
  split; [exact Hk | rewrite Ek; reflexivity].
Qed.

Lemma demands_decided (d : Data) :
  existsb (fun l => negb (Qle_bool (demand_of d l) 0)) (distribution d) = false ->
  forall l, In l (distribution d) -> demand_of d l <= 0.
Proof.
  intros E l Hl. apply Qle_bool_iff.
  destruct (Qle_bool (demand_of d l) 0) eqn:El; [reflexivity|].
  rewrite <- E. apply existsb_exists. exists l.
  split; [exact Hl | rewrite El; reflexivity].
Qed.

(** The second model may end in the status its data point to. *)
Lemma expected_outcome_correct (d : Data) :
  NoDup (production d) -> NoDup (distribution d) ->
  optimize (widgets2_model d) (expected_outcome d).
Proof.
  intros HP HD. unfold expected_outcome.
  destruct (production d) as [|p ps] eqn:EP.
  - destruct (existsb _ (distribution d)) eqn:E.
    + apply existsb_exists in E. destruct E as [l [Hl Hpos]].
      apply negb_true_iff, Solver.Qle_bool_false in Hpos.
      exact (no_facility_infeasible d l EP Hl Hpos).
    + exact (proj1 (no_facility_optimal d (fun _ => 0) EP (demands_decided d E))).
  - assert (Hne : production d <> []) by (rewrite EP; discriminate).
    rewrite <- EP in HP.
    destruct (existsb _ (keys d)) eqn:E.
    + apply existsb_exists in E. destruct E as [k [Hk Hneg]].
      apply negb_true_iff, Solver.Qle_bool_false in Hneg.
      eexists. exact (negative_cost_ray d k (NoDup_list_prod _ _ HP HD) Hk Hneg).
    + exact (Plan.cheapest_plan_optimal d HP Hne (costs_decided d E)).
Qed.

(** And in no other, the two statuses of a ray standing for each other. *)
Lemma expected_outcome_only (d : Data) (o : Outcome) :
  NoDup (production d) -> NoDup (distribution d) ->
  optimize (widgets2_model d) o -> may_end (expected_outcome d) o = true.
Proof.
  intros HP HD Ho. unfold expected_outcome.
  destruct (production d) as [|p ps] eqn:EP.
  - assert (Hvars : Vars (widgets2_model d) = []).
    { unfold widgets2_model, keys. rewrite EP. reflexivity. }
    destruct (existsb _ (distribution d)) eqn:E.
    + apply existsb_exists in E. destruct E as [l [Hl Hpos]].
      apply negb_true_iff, Solver.Qle_bool_false in Hpos.
      pose proof (no_facility_infeasible d l EP Hl Hpos) as Hinf.
      destruct o as [X| | |]; simpl in Ho; try reflexivity; exfalso.
      * exact (Hinf X (proj1 Ho)).
      * destruct Ho as [r Hr]. exact (Solver.no_vars_no_ray _ r Hvars Hr).
      * destruct Ho as [r Hr]. exact (Solver.no_vars_no_ray _ r Hvars Hr).
    + pose proof (proj1 (no_facility_optimal d (fun _ => 0) EP (demands_decided d E)))
        as Hopt.
      destruct (Solver.optimum_only _ _ o Hopt Ho) as [X' ->]. reflexivity.
  - assert (Hne : production d <> []) by (rewrite EP; discriminate).
    rewrite <- EP in HP.
    destruct (existsb _ (keys d)) eqn:E.
    + apply existsb_exists in E. destruct E as [k [Hk Hneg]].
      apply negb_true_iff, Solver.Qle_bool_false in Hneg.
      pose proof (negative_cost_unbounded d k HP HD Hne Hk Hneg) as Hunb.
      destruct o as [X| | |]; simpl in Ho; try reflexivity; exfalso.
      * exact (Solver.unbounded_no_optimum _ X Hunb Ho).
      * destruct Hunb as [[Y HY] _]. exact (Ho Y HY).
    + pose proof (Plan.cheapest_plan_optimal d HP Hne (costs_decided d E)) as Hopt.
      destruct (Solver.optimum_only _ _ o Hopt Ho) as [X' ->]. reflexivity.
Qed.

End Ray.

(** ** Reading the solution back *)

Module RoundTrip.
Import Notebook gp.

Lemma in_keys_iff (d : Data) (k : Key) : in_keys d k = true <-> In k (keys d).
Proof.
  unfold in_keys. rewrite existsb_exists. split.
  - intros [a [Ha E]]. apply Key_eqb_eq in E. subst. exact Ha.
  - intros Hk. exists k. split; [exact Hk | apply Key_eqb_refl].
Qed.

Lemma getAttr_X_closed (d : Data) (X : Solution) :
  getAttr_X X (widgets2_x d) = map (fun k => (k, X k)) (keys d).
Proof. unfold getAttr_X, widgets2_x. rewrite map_map. reflexivity. Qed.

Lemma concat_same_index (costs : pd.Series Key) (g : Key -> option Q) :
  pd.concat costs (map (fun l => (l, g l)) (pd.index costs)) =
  map (fun kc => pd.mkRow (fst kc) (snd kc) (g (fst kc))) costs.
Proof.
  unfold pd.concat, pd.index.
  induction costs as [|[k c] costs IH]; [reflexivity|].
  simpl. f_equal. exact IH.
Qed.

Lemma sol2_closed (d : Data) (X : Solution) :
  sol2 d (widgets2_x d) X =
  map (fun kc => pd.mkRow (fst kc) (snd kc)
                          (if in_keys d (fst kc) then Some (X (fst kc)) else None))
      (transp_cost d).
Proof.
  unfold sol2, pd.Series_of_dict. rewrite getAttr_X_closed.
  rewrite <- (concat_same_index (transp_cost d)
                (fun k => if in_keys d k then Some (X k) else None)).
  f_equal. apply map_ext. intros k.
  rewrite (dict_get_map Key_eqb Key_eqb_eq). reflexivity.
Qed.

(** A displayed row contributes the cost of its pair, and a row left out
    contributes nothing. *)
Lemma row_term (d : Data) (X : Solution) (k : Key) (c : Q) :
  NoDup (pd.index (transp_cost d)) -> In (k, c) (transp_cost d) ->
  (forall k', In k' (keys d) -> 0 <= X k') ->
  let r := pd.mkRow k c (if in_keys d k then Some (X k) else None) in
  (if pd.shipment_pos r
   then pd.cost r * match pd.shipment r with Some v => v | None => 0 end
   else 0) ==
  (if in_keys d k then table_cost d k * X k else 0).
Proof.
  intros Hnd Hin Hpos. simpl. unfold pd.shipment_pos. simpl.
  destruct (in_keys d k) eqn:Ek; [|reflexivity].
  apply in_keys_iff in Ek. specialize (Hpos k Ek).
  assert (Ec : table_cost d k = c).
  { unfold table_cost. rewrite (loc_NoDup Key_eqb Key_eqb_eq _ _ _ Hnd Hin). reflexivity. }
  rewrite Ec. destruct (Qle_bool (X k) 0) eqn:E; simpl; [|reflexivity].
  apply Qle_bool_iff in E.
  assert (E0 : X k == 0) by lra. rewrite E0. lra.
Qed.

Lemma recomputed_cost_closed (d : Data) (X : Solution) :
  NoDup (pd.index (transp_cost d)) ->
  (forall k, In k (keys d) -> 0 <= X k) ->
  recomputed_cost (sol2 d (widgets2_x d) X) ==
  Qsum (fun k => table_cost d k * X k) (filter (in_keys d) (pd.index (transp_cost d))).
Proof.
  intros Hnd Hpos. unfold recomputed_cost, pd.positive_rows.
  rewrite Qsum_filter, sol2_closed, Qsum_map.
  rewrite Qsum_filter. unfold pd.index. rewrite Qsum_map.
  apply Qsum_ext_in. intros [k c] Hin.
  exact (row_term d X k c Hnd Hin Hpos).
Qed.

Lemma displayed_keys (d : Data) :
  NoDup (production d) -> NoDup (distribution d) ->
  NoDup (pd.index (transp_cost d)) ->
  (forall k, In k (keys d) -> In k (pd.index (transp_cost d))) ->
  Permutation (filter (in_keys d) (pd.index (transp_cost d))) (keys d).
Proof.
  intros HP HD Hnd Hsub. apply NoDup_Permutation.
  - apply NoDup_filter. exact Hnd.
  - apply NoDup_list_prod; assumption.
  - intros k. rewrite filter_In, in_keys_iff. split.
    + intros [_ Hk]. exact Hk.
    + intros Hk. split; [exact (Hsub k Hk) | exact Hk].
Qed.

Lemma combine_fst_snd {A B : Type} (l : list (A * B)) :
  combine (map fst l) (map snd l) = l.
Proof.
  induction l as [|[a b] l IH]; simpl; [reflexivity|]. rewrite IH. reflexivity.
Qed.

(** With the cost rows in the order of the pairs, each pair gets the cost
    the table lists for it. *)
Lemma aligned_costs (d : Data) (k : Key) :
  pd.index (transp_cost d) = keys d -> cost_of d k = table_cost d k.
Proof.
  intros E. unfold cost_of, table_cost. rewrite <- E. unfold pd.index.
  rewrite combine_fst_snd. reflexivity.
Qed.

End RoundTrip.

(** ** The notebook's data *)

Module Scenario.
Import Notebook gp.

Lemma well_formedb_true (d : Data) : well_formedb d = true -> well_formed d.
Proof.
  unfold well_formedb, well_formed. rewrite !andb_true_iff.
  intros [[[[HP HD] Hc] Hn] Ht]. repeat split.
  - exact (nodup_by_NoDup String.eqb _ String.eqb_eq HP).
  - exact (nodup_by_NoDup String.eqb _ String.eqb_eq HD).
  - apply Nat.eqb_eq. exact Hc.
  - apply Nat.eqb_eq. exact Hn.
  - apply Nat.eqb_eq. exact Ht.
Qed.

Lemma the_data_well_formed : well_formed the_data.
Proof. apply well_formedb_true. vm_compute. reflexivity. Qed.

Lemma the_index_NoDup : NoDup (pd.index (transp_cost the_data)).
Proof.
  apply (nodup_by_NoDup Key_eqb _ Key_eqb_eq). vm_compute. reflexivity.
Qed.

Lemma the_keys_listed :
  forall k, In k (keys the_data) -> In k (pd.index (transp_cost the_data)).
Proof. intros k Hk. exact Hk. Qed.

Lemma the_costs_nonneg : forall k, In k (keys the_data) -> 0 <= cost_of the_data k.
Proof.
  assert (H : forallb (fun k => Qle_bool 0 (cost_of the_data k)) (keys the_data) = true)
    by (vm_compute; reflexivity).
  rewrite forallb_forall in H. intros k Hk. apply Qle_bool_iff. exact (H k Hk).
Qed.

Lemma the_production_nonempty : production the_data <> [].
Proof. discriminate. Qed.

Lemma the_m2 : m2 the_data = Ok (widgets2_model the_data).
Proof. exact (Closed.m2_well_formed the_data the_data_well_formed). Qed.

Lemma the_widgets2 :
  widgets2 the_data = Ok (widgets2_model the_data, widgets2_x the_data).
Proof.
  exact (Closed.widgets2_closed the_data
           (Closed.well_formed_reaches the_data the_data_well_formed)).
Qed.

Lemma the_plan_optimal : optimal (widgets2_model the_data) (cheapest_plan the_data).
Proof.
  apply Plan.cheapest_plan_optimal.
  - exact (proj1 the_data_well_formed).
  - exact the_production_nonempty.
  - exact the_costs_nonneg.
Qed.

Lemma the_plan_cost :
  ObjVal (widgets2_model the_data) (cheapest_plan the_data) == 1546.64.
Proof. vm_compute. reflexivity. Qed.

End Scenario.

(** ** The optimal solutions of the second model *)

Module Optimum.
Import Notebook gp.

Lemma Qsum_eq_terms {A : Type} (f g : A -> Q) (l : list A) :
  (forall a, In a l -> f a <= g a) -> Qsum g l <= Qsum f l ->
  forall a, In a l -> f a == g a.
Proof.
  induction l as [|b l IH]; intros Hle Hsum a Hin; [destruct Hin|].
  rewrite !Qsum_cons in Hsum.
  assert (Hb : f b <= g b) by (apply Hle; left; reflexivity).
  assert (Hl : Qsum f l <= Qsum g l).
  { apply Qsum_le. intros c Hc. apply Hle. right. exact Hc. }
  destruct Hin as [<-|Hin]; [lra|].
  apply IH; [|lra|exact Hin].
  intros c Hc. apply Hle. right. exact Hc.
Qed.

Lemma location_bounds (d : Data) (X : Solution) (l : string) :
  production d <> [] ->
  (forall k, In k (keys d) -> 0 <= cost_of d k) ->
  feasible (widgets2_model d) X ->
  In l (distribution d) ->
  least d l <= cost_of d (cheapest d l, l) * ship_in d X l /\
  cost_of d (cheapest d l, l) * ship_in d X l <= served d X l.
Proof.
  intros Hne Hcost HX Hl.
  apply Widgets2.feasible_iff in HX. destruct HX as [Hpos Hdem].
  destruct (Plan.cheapest_spec d l Hne) as [Hin Hmin]. split.
  - assert (Hc : 0 <= cost_of d (cheapest d l, l)).
    { apply Hcost. apply in_prod; assumption. }
    assert (Hs : pos_part (demand_of d l) <= ship_in d X l).
    { apply Plan.pos_part_least; [exact (Hdem l Hl)|].
      apply Qsum_nonneg. intros p Hp. apply Hpos. apply in_prod; assumption. }
    unfold least. rewrite !(Qmult_comm (cost_of d (cheapest d l, l))).
    apply Qmult_le_compat_r; assumption.
  - unfold ship_in, served. rewrite <- Qsum_scal. apply Qsum_le. intros p Hp.
    apply Qmult_le_compat_r; [exact (Hmin p Hp)|].
    apply Hpos. apply in_prod; assumption.
Qed.

Lemma optimal_value (d : Data) (X : Solution) :
  NoDup (production d) -> production d <> [] ->
  (forall k, In k (keys d) -> 0 <= cost_of d k) ->
  optimal (widgets2_model d) X ->
  ObjVal (widgets2_model d) X == Qsum (least d) (distribution d).
Proof.
  intros HP Hne Hcost [HX Hmin].
  pose proof (Plan.cheapest_plan_optimal d HP Hne Hcost) as [Hplan _].
  specialize (Hmin _ Hplan). rewrite (Plan.cheapest_plan_cost d HP Hne) in Hmin.
  pose proof (Plan.cost_lower_bound d X Hne Hcost HX) as Hlow.
  unfold least. lra.
Qed.

Lemma optimal_by_location (d : Data) (X : Solution) (l : string) :
  NoDup (production d) -> production d <> [] ->
  (forall k, In k (keys d) -> 0 <= cost_of d k) ->
  optimal (widgets2_model d) X ->
  In l (distribution d) ->
  least d l == cost_of d (cheapest d l, l) * ship_in d X l /\
  cost_of d (cheapest d l, l) * ship_in d X l == served d X l.
Proof.
  intros HP Hne Hcost Hopt Hl.
  pose proof (optimal_value d X HP Hne Hcost Hopt) as Hval.
  destruct Hopt as [HX _].
  assert (Heq : least d l == served d X l).
  { apply (Qsum_eq_terms (least d) (served d X) (distribution d)).
    - intros l' Hl'.
      destruct (location_bounds d X l' Hne Hcost HX Hl') as [H1 H2]. lra.
    - rewrite <- Hval. rewrite Widgets2.ObjVal_by_location. apply Qle_refl.
    - exact Hl. }
  destruct (location_bounds d X l Hne Hcost HX Hl) as [H1 H2].
  split; lra.
Qed.

Lemma noncheapest_zero (d : Data) (X : Solution) (p l : string) :
  NoDup (production d) -> production d <> [] ->
  (forall k, In k (keys d) -> 0 <= cost_of d k) ->
  optimal (widgets2_model d) X ->
  In p (production d) -> In l (distribution d) ->
  cost_of d (cheapest d l, l) < cost_of d (p, l) -> X (p, l) == 0.
Proof.
  intros HP Hne Hcost Hopt Hp Hl Hlt.
  destruct (optimal_by_location d X l HP Hne Hcost Hopt Hl) as [_ H2].
  destruct (Plan.cheapest_spec d l Hne) as [_ Hmin].
  destruct Hopt as [HX _]. apply Widgets2.feasible_iff in HX.
  destruct HX as [Hpos _].
  assert (Hterm : cost_of d (cheapest d l, l) * X (p, l) ==
                  cost_of d (p, l) * X (p, l)).
  { apply (Qsum_eq_terms
             (fun q => cost_of d (cheapest d l, l) * X (q, l))
             (fun q => cost_of d (q, l) * X (q, l)) (production d)).
    - intros q Hq. apply Qmult_le_compat_r; [exact (Hmin q Hq)|].
      apply Hpos. apply in_prod; assumption.
    - rewrite Qsum_scal. fold (ship_in d X l). fold (served d X l).
      rewrite H2. apply Qle_refl.
    - exact Hp. }
  assert (Hz : (cost_of d (p, l) - cost_of d (cheapest d l, l)) * X (p, l) == 0)
    by lra.
  apply Qmult_integral in Hz. destruct Hz as [Hz|Hz]; [lra | exact Hz].
Qed.

Lemma exact_demand (d : Data) (X : Solution) (l : string) :
  NoDup (production d) -> production d <> [] ->
  (forall k, In k (keys d) -> 0 <= cost_of d k) ->
  optimal (widgets2_model d) X ->
  In l (distribution d) ->
  0 < cost_of d (cheapest d l, l) ->
  ship_in d X l == pos_part (demand_of d l).
Proof.
  intros HP Hne Hcost Hopt Hl Hc.
  destruct (optimal_by_location d X l HP Hne Hcost Hopt Hl) as [H1 _].
  unfold least in H1.
  assert (Hz : cost_of d (cheapest d l, l) *
               (ship_in d X l - pos_part (demand_of d l)) == 0) by lra.
  apply Qmult_integral in Hz. destruct Hz as [Hz|Hz]; lra.
Qed.

(** Where every location has one cheapest facility, at a positive cost,
    the optimal solution is the cheapest plan. *)
Lemma optimal_is_cheapest_plan (d : Data) (X : Solution) :
  NoDup (production d) -> production d <> [] ->
  (forall l, In l (distribution d) -> 0 < cost_of d (cheapest d l, l)) ->
  (forall p l, In p (production d) -> In l (distribution d) ->
               p <> cheapest d l ->
               cost_of d (cheapest d l, l) < cost_of d (p, l)) ->
  optimal (widgets2_model d) X ->
  forall k, In k (keys d) -> X k == cheapest_plan d k.
Proof.
  intros HP Hne Hposc Hstrict Hopt [p l] Hk.
  apply in_prod_iff in Hk. destruct Hk as [Hp Hl].
  assert (Hcost : forall k, In k (keys d) -> 0 <= cost_of d k).
  { intros [q l'] Hq. apply in_prod_iff in Hq. destruct Hq as [Hq Hl'].
    destruct (Plan.cheapest_spec d l' Hne) as [_ Hmin].
    specialize (Hmin q Hq). specialize (Hposc l' Hl'). lra. }
  unfold cheapest_plan. simpl.
  destruct (cheapest d l =? p)%string eqn:E.
  - apply String.eqb_eq in E. subst p.
    rewrite <- (exact_demand d X l HP Hne Hcost Hopt Hl (Hposc l Hl)).
    unfold ship_in.
    rewrite <- (Qsum_pick string String.eqb String.eqb_eq (fun q => X (q, l))
                          (cheapest d l) (production d) HP Hp).
    apply Qsum_ext_in. intros q Hq.
    destruct (cheapest d l =? q)%string eqn:Eq; [reflexivity|].
    symmetry. apply (noncheapest_zero d X q l HP Hne Hcost Hopt Hq Hl).
    apply Hstrict; [exact Hq | exact Hl|].
    intros ->. rewrite String.eqb_refl in Eq. discriminate.
  - apply (noncheapest_zero d X p l HP Hne Hcost Hopt Hp Hl).
    apply Hstrict; [exact Hp | exact Hl|].
    intros ->. rewrite String.eqb_refl in E. discriminate.
Qed.

End Optimum.

(** ** The notebook's data with the cost rows as displayed *)

Module Displayed.
Import Notebook gp.

Lemma well_formed_ : well_formed displayed_data.
Proof. apply Scenario.well_formedb_true. vm_compute. reflexivity. Qed.

Lemma index_NoDup : NoDup (pd.index (transp_cost displayed_data)).
Proof.
  apply (nodup_by_NoDup Key_eqb _ Key_eqb_eq). vm_compute. reflexivity.
Qed.

Lemma displayed_m2 : m2 displayed_data = Ok (widgets2_model displayed_data).
Proof. exact (Closed.m2_well_formed displayed_data well_formed_). Qed.

Lemma displayed_widgets2 :
  widgets2 displayed_data =
  Ok (widgets2_model displayed_data, widgets2_x displayed_data).
Proof.
  exact (Closed.widgets2_closed displayed_data
           (Closed.well_formed_reaches displayed_data well_formed_)).
Qed.

Lemma cheapest_positive :
  forall l, In l (distribution displayed_data) ->
            0 < cost_of displayed_data (cheapest displayed_data l, l).
Proof.
  assert (H : forallb (fun l => negb (Qle_bool
                         (cost_of displayed_data (cheapest displayed_data l, l)) 0))
                      (distribution displayed_data) = true)
    by (vm_compute; reflexivity).
  rewrite forallb_forall in H. intros l Hl.
  apply Solver.Qle_bool_false. apply negb_true_iff. exact (H l Hl).
Qed.

Lemma cheapest_alone :
  forall p l, In p (production displayed_data) -> In l (distribution displayed_data) ->
              p <> cheapest displayed_data l ->
              cost_of displayed_data (cheapest displayed_data l, l)
              < cost_of displayed_data (p, l).
Proof.
  assert (H : forallb (fun k => (fst k =? cheapest displayed_data (snd k))%string ||
                                negb (Qle_bool (cost_of displayed_data k)
                                       (cost_of displayed_data
                                          (cheapest displayed_data (snd k), snd k))))
                      (keys displayed_data) = true)
    by (vm_compute; reflexivity).
  rewrite forallb_forall in H. intros p l Hp Hl Hne.
  specialize (H (p, l) (in_prod _ _ _ _ Hp Hl)). simpl in H.
  apply orb_true_iff in H. destruct H as [H|H].
  - apply String.eqb_eq in H. contradiction.
  - apply Solver.Qle_bool_false. apply negb_true_iff. exact H.
Qed.

Lemma costs_nonneg :
  forall k, In k (keys displayed_data) -> 0 <= cost_of displayed_data k.
Proof.
  intros [p l] Hk. apply in_prod_iff in Hk. destruct Hk as [Hp Hl].
  destruct (Plan.cheapest_spec displayed_data l) as [_ Hmin]; [discriminate|].
  specialize (Hmin p Hp). pose proof (cheapest_positive l Hl). lra.
Qed.

Lemma plan_optimal :
  optimal (widgets2_model displayed_data) (cheapest_plan displayed_data).
Proof.
  apply Plan.cheapest_plan_optimal.
  - exact (proj1 well_formed_).
  - discriminate.
  - exact costs_nonneg.
Qed.

Lemma optimal_is_plan (X : Solution) :
  optimal (widgets2_model displayed_data) X ->
  forall k, In k (keys displayed_data) -> X k == cheapest_plan displayed_data k.
Proof.
  apply Optimum.optimal_is_cheapest_plan.
  - exact (proj1 well_formed_).
  - discriminate.
  - exact cheapest_positive.
  - exact cheapest_alone.
Qed.

Lemma optimal_total (X : Solution) :
  optimal (widgets2_model displayed_data) X ->
  total_cost (widgets2_model displayed_data) X == 1546.64.
Proof.
  intros [HX Hmin]. destruct plan_optimal as [HP Hpmin].
  specialize (Hmin _ HP). specialize (Hpmin _ HX).
  assert (E : ObjVal (widgets2_model displayed_data) (cheapest_plan displayed_data)
              == 1546.64) by (vm_compute; reflexivity).
  unfold total_cost. fold (ObjVal (widgets2_model displayed_data) X). lra.
Qed.

Lemma optimal_rows (X : Solution) :
  optimal (widgets2_model displayed_data) X ->
  recomputed_cost (sol2 displayed_data (widgets2_x displayed_data) X) == 2595.
Proof.
  intros Hopt. pose proof (optimal_is_plan X Hopt) as Hsame.
  destruct Hopt as [HX _]. apply Widgets2.feasible_iff in HX.
  destruct HX as [Hpos _].
  rewrite (RoundTrip.recomputed_cost_closed displayed_data X index_NoDup Hpos).
  transitivity (recomputed_cost (sol2 displayed_data (widgets2_x displayed_data)
                                      (cheapest_plan displayed_data))).
  - rewrite (RoundTrip.recomputed_cost_closed displayed_data
               (cheapest_plan displayed_data) index_NoDup
               (fun k _ => Plan.cheapest_plan_nonneg displayed_data k)).
    apply Qsum_ext_in. intros k Hk. apply filter_In in Hk.
    destruct Hk as [_ Hk]. apply RoundTrip.in_keys_iff in Hk.
    rewrite (Hsame k Hk). reflexivity.
  - vm_compute. reflexivity.
Qed.

End Displayed.

(** ** The properties of the specification, on the notebook *)

Import Notebook gp.




(** C2: in every solution the solver returns for the second model, each
    shipment [x[p,d]] is non-negative and the shipments into a location sum
    to at least its demand. *)
Theorem shipments_meet_demand (d : Data) (M : Model) (xs : tupledict) (X : Solution) :
  widgets2 d = Ok (M, xs) ->
  optimize M (OPTIMAL X) ->
  (forall p l, In p (production d) -> In l (distribution d) ->
     exists v, getitem xs (p, l) = Ok v /\ 0 <= X (VarKey v)) /\
  (forall l, In l (distribution d) -> demand_of d l <= ship_in d X l).
Proof.
  intros Hrun [HX _]. destruct (Closed.widgets2_inv d M xs Hrun) as [-> ->].
  apply Widgets2.feasible_iff in HX. destruct HX as [Hpos Hdem].
  split; [|exact Hdem].
  intros p l Hp Hl. exists (prod_ship d (p, l)).
  assert (Hk : In (p, l) (keys d)) by (apply in_prod; assumption).
  split; [exact (getitem_map (prod_ship d) (keys d) (p, l) Hk) | exact (Hpos _ Hk)].
Qed.

Lemma shipments_meet_demand_witness :
  widgets2 the_data = Ok (widgets2_model the_data, widgets2_x the_data) /\
  optimize (widgets2_model the_data) (OPTIMAL (cheapest_plan the_data)) /\
  forall l, In l (distribution the_data) ->
            demand_of the_data l <= ship_in the_data (cheapest_plan the_data) l.
Proof.
  split; [exact Scenario.the_widgets2|].
  split; [exact Scenario.the_plan_optimal|].
  exact (proj2 (shipments_meet_demand the_data (widgets2_model the_data)
                  (widgets2_x the_data) (cheapest_plan the_data)
                  Scenario.the_widgets2 Scenario.the_plan_optimal)).
Defined.

(** C3: the second model holds no capacity constraint: on the notebook's data
    its optimal solution ships 181 out of Little Rock, whose capacity is 140,
    121 out of Charleston, whose required minimum is 0.75 x 180 = 135, and
    101 out of Birmingham, whose capacity is 80. *)
Theorem capacity_not_enforced :
  m2 the_data = Ok (widgets2_model the_data) /\
  optimize (widgets2_model the_data) (OPTIMAL (cheapest_plan the_data)) /\
  (capacity_of the_data "Little Rock" == 140 /\
   ship_out the_data (cheapest_plan the_data) "Little Rock" == 181) /\
  (frac the_data * capacity_of the_data "Charleston" == 135 /\
   ship_out the_data (cheapest_plan the_data) "Charleston" == 121) /\
  (capacity_of the_data "Birmingham" == 80 /\
   ship_out the_data (cheapest_plan the_data) "Birmingham" == 101) /\
  ~ ship_out the_data (cheapest_plan the_data) "Little Rock"
    <= capacity_of the_data "Little Rock" /\
  ~ frac the_data * capacity_of the_data "Charleston"
    <= ship_out the_data (cheapest_plan the_data) "Charleston".
Proof.
  split; [exact Scenario.the_m2|].
  split; [exact Scenario.the_plan_optimal|].
  split; [split; vm_compute; reflexivity|].
  split; [split; vm_compute; reflexivity|].
  split; [split; vm_compute; reflexivity|].
  split; apply Qlt_not_le; vm_compute; reflexivity.
Qed.

(** C4: the second model has no expansion choice: all its variables are
    continuous shipments and all its constraints are the demand constraints,
    of sense [>=]; no constraint bounds a sum of choices by 1. *)
Theorem no_choice_constraint :
  m2 the_data = Ok (widgets2_model the_data) /\
  Forall (fun v => VType_ v = CONTINUOUS /\ VarName v = "prod_ship"%string)
         (Vars (widgets2_model the_data)) /\
  Forall (fun c => Sense_ c = GREATER_EQUAL /\ ConstrName c = "meet_demand"%string)
         (Constrs (widgets2_model the_data)) /\
  ~ Exists (fun c => Sense_ c = LESS_EQUAL) (Constrs (widgets2_model the_data)).
Proof.
  split; [exact Scenario.the_m2|].
  assert (HC : Forall (fun c => Sense_ c = GREATER_EQUAL /\
                               ConstrName c = "meet_demand"%string)
                      (Constrs (widgets2_model the_data))).
  { apply Forall_forall. intros c Hc. apply in_map_iff in Hc.
    destruct Hc as [l [<- _]]. split; reflexivity. }
  split; [|split; [exact HC|]].
  - apply Forall_forall. intros v Hv. apply in_map_iff in Hv.
    destruct Hv as [k [<- _]]. split; reflexivity.
  - intros Hex. apply Exists_exists in Hex. destruct Hex as [c [Hc Hle]].
    rewrite Forall_forall in HC. destruct (HC c Hc) as [Hge _]. congruence.
Qed.

(** C5, as the specification states it, fails: with an empty facility set
    the cells of the first model raise nothing. *)
Lemma config_error_counterexample :
  ~ (rejected_by_spec no_facilities ->
     exists e, base_cells no_facilities = Raise e).
Proof.
  intros H. destruct H as [e He].
  - left. reflexivity.
  - vm_compute in He. discriminate.
Qed.

(** C5, amended: the cells of the first model validate nothing.  Whenever the
    capacities are as many as the facilities and the demands as many as the
    locations, they run through and build [m], which [optimize] solves;
    empty sets, a [frac] outside [0,1] and negative values change nothing. *)
Theorem base_cells_no_validation (d : Data) :
  List.length (max_prod_values d) = List.length (production d) ->
  List.length (n_demand_values d) = List.length (distribution d) ->
  base_cells d = Ok (m d) /\ exists X, optimize (m d) (OPTIMAL X).
Proof.
  intros Hcap Hdem. split.
  - unfold base_cells, max_prod, n_demand, pd.Series_.
    rewrite Hcap, Hdem, !Nat.eqb_refl. reflexivity.
  - exists (fun _ => 0).
    exact (proj1 (Solver.empty_model_optimal "widgets" (fun _ => 0))).
Qed.

Lemma base_cells_no_validation_witness :
  rejected_by_spec bad_numbers /\
  base_cells bad_numbers = Ok (m bad_numbers) /\
  exists X, optimize (m bad_numbers) (OPTIMAL X).
Proof.
  split.
  - right. right. left. intros [_ H]. vm_compute in H. apply H. reflexivity.
  - apply (base_cells_no_validation bad_numbers); reflexivity.
Defined.

(** C6: the second model is not the base model with an expansion.  It holds
    the shipment variables and the demand constraints only: Birmingham may
    ship more than its capacity with the larger increment, 80 + 25 + 50, or
    less than the required fraction of its capacity, and the objective is the
    shipment cost with no activation term. *)
Theorem expansion_missing :
  m2 the_data = Ok (widgets2_model the_data) /\
  Forall (fun v => VarName v = "prod_ship"%string) (Vars (widgets2_model the_data)) /\
  Forall (fun c => ConstrName c = "meet_demand"%string)
         (Constrs (widgets2_model the_data)) /\
  (feasible (widgets2_model the_data) (all_from the_data "Birmingham") /\
   capacity_of the_data "Birmingham" + 25 + 50
   < ship_out the_data (all_from the_data "Birmingham") "Birmingham") /\
  (feasible (widgets2_model the_data) (all_from the_data "Cleveland") /\
   ship_out the_data (all_from the_data "Cleveland") "Birmingham"
   < frac the_data * capacity_of the_data "Birmingham") /\
  (forall X, total_cost (widgets2_model the_data) X ==
             Qsum (fun k => cost_of the_data k * X k) (keys the_data)).
Proof.
  split; [exact Scenario.the_m2|].
  split.
  { apply Forall_forall. intros v Hv. apply in_map_iff in Hv.
    destruct Hv as [k [<- _]]. reflexivity. }
  split.
  { apply Forall_forall. intros c Hc. apply in_map_iff in Hc.
    destruct Hc as [l [<- _]]. reflexivity. }
  split; [|split].
  - split; [apply Solver.feasibleb_iff|]; vm_compute; reflexivity.
  - split; [apply Solver.feasibleb_iff|]; vm_compute; reflexivity.
  - intros X. exact (Widgets2.ObjVal_closed the_data X).
Qed.

(** C7: on the notebook's data the demands total 703, the capacities 780 and
    the required minimum production 585, and the base model is feasible: a
    non-negative shipment plan meets every demand and keeps every facility
    between [frac] of its capacity and its capacity.  The same plan is
    feasible for [m] as the notebook builds it. *)
Theorem base_model_feasible :
  Qsum (fun v => v) (n_demand_values the_data) == 703 /\
  Qsum (fun v => v) (max_prod_values the_data) == 780 /\
  Qsum (fun v => frac the_data * v) (max_prod_values the_data) == 585 /\
  exists X,
    feasible (m the_data) X /\
    feasible (Formulation.base_model the_data) X /\
    (forall k, In k (keys the_data) -> 0 <= X k) /\
    (forall l, In l (distribution the_data) ->
               demand_of the_data l <= ship_in the_data X l) /\
    (forall p, In p (production the_data) ->
               frac the_data * capacity_of the_data p <= ship_out the_data X p /\
               ship_out the_data X p <= capacity_of the_data p).
Proof.
  split; [vm_compute; reflexivity|].
  split; [vm_compute; reflexivity|].
  split; [vm_compute; reflexivity|].
  exists Formulation.a_plan.
  split; [split; constructor|].
  split; [apply Solver.feasibleb_iff; vm_compute; reflexivity|].
  split; [|split].
  - assert (H : forallb (fun k => Qle_bool 0 (Formulation.a_plan k))
                        (keys the_data) = true) by (vm_compute; reflexivity).
    rewrite forallb_forall in H. intros k Hk. apply Qle_bool_iff. exact (H k Hk).
  - assert (H : forallb (fun l => Qle_bool (demand_of the_data l)
                                           (ship_in the_data Formulation.a_plan l))
                        (distribution the_data) = true) by (vm_compute; reflexivity).
    rewrite forallb_forall in H. intros l Hl. apply Qle_bool_iff. exact (H l Hl).
  - assert (H : forallb (fun p =>
                           Qle_bool (frac the_data * capacity_of the_data p)
                                    (ship_out the_data Formulation.a_plan p) &&
                           Qle_bool (ship_out the_data Formulation.a_plan p)
                                    (capacity_of the_data p))
                        (production the_data) = true) by (vm_compute; reflexivity).
    rewrite forallb_forall in H. intros p Hp. specialize (H p Hp).
    rewrite andb_true_iff, !Qle_bool_iff in H. exact H.
Qed.

(** C8: with the cost rows in the order in which the notebook displays
    them, every solution [optimize] returns for the second model is reported
    at a total cost of 1546.64, while cost times shipment, added up over the
    rows of the extracted solution with a positive shipment, comes to 2595:
    [addVars] has given the pairs the costs of other pairs. *)
Theorem objective_differs_from_rows :
  m2 displayed_data = Ok (widgets2_model displayed_data) /\
  widgets2 displayed_data =
    Ok (widgets2_model displayed_data, widgets2_x displayed_data) /\
  optimize (widgets2_model displayed_data) (OPTIMAL (cheapest_plan displayed_data)) /\
  forall X, optimize (widgets2_model displayed_data) (OPTIMAL X) ->
    total_cost (widgets2_model displayed_data) X == 1546.64 /\
    recomputed_cost (sol2 displayed_data (widgets2_x displayed_data) X) == 2595 /\
    ~ total_cost (widgets2_model displayed_data) X ==
      recomputed_cost (sol2 displayed_data (widgets2_x displayed_data) X).
Proof.
  split; [exact Displayed.displayed_m2|].
  split; [exact Displayed.displayed_widgets2|].
  split; [exact Displayed.plan_optimal|].
  intros X HX.
  assert (Ht : total_cost (widgets2_model displayed_data) X == 1546.64)
    by exact (Displayed.optimal_total X HX).
  assert (Hr : recomputed_cost (sol2 displayed_data (widgets2_x displayed_data) X)
               == 2595) by exact (Displayed.optimal_rows X HX).
  split; [exact Ht|]. split; [exact Hr|].
  rewrite Ht, Hr. intros E. vm_compute in E. discriminate.
Qed.

(** C9: on the notebook's data the first model has optimal value 0 and the
    second has optimal value 1546.64: the second is neither below nor equal
    to the first. *)
Theorem objectives_compared :
  optimal (m the_data) (fun _ => 0) /\
  total_cost (m the_data) (fun _ => 0) == 0 /\
  m2 the_data = Ok (widgets2_model the_data) /\
  optimal (widgets2_model the_data) (cheapest_plan the_data) /\
  total_cost (widgets2_model the_data) (cheapest_plan the_data) == 1546.64 /\
  ~ total_cost (widgets2_model the_data) (cheapest_plan the_data)
    <= total_cost (m the_data) (fun _ => 0).
Proof.
  split; [exact (proj1 (Solver.empty_model_optimal "widgets" (fun _ => 0)))|].
  split; [reflexivity|].
  split; [exact Scenario.the_m2|].
  split; [exact Scenario.the_plan_optimal|].
  split; [exact Scenario.the_plan_cost|].
  apply Qlt_not_le. vm_compute. reflexivity.
Qed.

(** C10: whatever the data, the first model [m] has no variable and no
    constraint; [optimize] ends on it with status optimal, and with no other,
    and its objective value is 0. *)
Theorem base_model_empty (d : Data) :
  Vars (m d) = [] /\ Constrs (m d) = [] /\
  (exists X, optimize (m d) (OPTIMAL X)) /\
  (forall o, optimize (m d) o -> exists X, o = OPTIMAL X) /\
  (forall X, ObjVal (m d) X == 0).
Proof.
  split; [reflexivity|]. split; [reflexivity|].
  assert (Hopt : forall X, optimize (m d) (OPTIMAL X)).
  { intros X. exact (proj1 (Solver.empty_model_optimal "widgets" X)). }
  split; [exists (fun _ => 0); apply Hopt|].
  split; [|intros X; reflexivity].
  intros o Ho.
  exact (Solver.optimum_only (m d) (fun _ => 0) o (Hopt (fun _ => 0)) Ho).
Qed.

(** ** Further properties of the cells *)

(** *** How the second cell ends *)

Module Cell.
Import Notebook gp.

Lemma getitem_map_out (f : Key -> Var) (ks : list Key) (k : Key) :
  ~ In k ks -> getitem (map (fun a => (a, f a)) ks) k = Raise KeyError.
Proof.
  induction ks as [|a ks IH]; simpl; [reflexivity|].
  intros Hnot. destruct (Key_eqb a k) eqn:E.
  - apply Key_eqb_eq in E. exfalso. apply Hnot. left. exact E.
  - apply IH. intros Hin. apply Hnot. right. exact Hin.
Qed.

Lemma loc_combine_nth {L : Type} (eqb : L -> L -> bool) (labels : list L)
    (values : list Q) (i : nat) (l : L) (v : Q) :
  (forall a b, eqb a b = true <-> a = b) ->
  NoDup labels -> nth_error labels i = Some l -> nth_error values i = Some v ->
  pd.loc eqb (combine labels values) l = Ok v.
Proof.
  intros Heqb Hnd. revert values i.
  induction Hnd as [|a labels Hnot Hnd IH]; intros values i Hl Hv.
  - destruct i; discriminate.
  - destruct values as [|w values]; [destruct i; discriminate|].
    destruct i as [|i]; simpl in Hl, Hv.
    + injection Hl as ->. injection Hv as ->. simpl.
      rewrite (proj2 (Heqb l l) eq_refl). reflexivity.
    + simpl. destruct (eqb a l) eqn:E.
      * apply Heqb in E. subst a. exfalso. apply Hnot.
        exact (nth_error_In _ _ Hl).
      * exact (IH values i Hl Hv).
Qed.

Lemma nth_error_list_prod {A B : Type} (l : list A) (l' : list B)
    (i j : nat) (a : A) (b : B) :
  nth_error l i = Some a -> nth_error l' j = Some b ->
  nth_error (list_prod l l') (i * List.length l' + j) = Some (a, b).
Proof.
  revert i. induction l as [|a0 l IH]; intros i Ha Hb.
  - destruct i; discriminate.
  - assert (Hj : (j < List.length l')%nat).
    { apply nth_error_Some. rewrite Hb. discriminate. }
    simpl list_prod. destruct i as [|i]; simpl in Ha.
    + injection Ha as ->. simpl.
      rewrite nth_error_app1 by (rewrite length_map; exact Hj).
      rewrite nth_error_map, Hb. reflexivity.
    + rewrite nth_error_app2 by (rewrite length_map; simpl; lia).
      rewrite length_map.
      replace (S i * List.length l' + j - List.length l')%nat
        with (i * List.length l' + j)%nat by (simpl; lia).
      exact (IH i Ha Hb).
Qed.

Lemma cell_4_raise (d : Data) :
  List.length (max_prod_values d) <> List.length (production d) \/
  List.length (n_demand_values d) <> List.length (distribution d) ->
  cell_4 d = Raise ValueError.
Proof.
  intros H. unfold cell_4, max_prod, n_demand, pd.Series_.
  destruct (Nat.eqb (List.length (max_prod_values d)) _) eqn:Ec; [|reflexivity].
  destruct (Nat.eqb (List.length (n_demand_values d)) _) eqn:Ed; [|reflexivity].
  apply Nat.eqb_eq in Ec, Ed. destruct H; contradiction.
Qed.

Lemma addVars_count (d : Data) :
  keys d <> [] ->
  List.length (transp_cost d) <> List.length (keys d) ->
  addVars (Model_ "widgets2") (production d) (distribution d) (transp_cost d)
          "prod_ship" = Raise AssertionError.
Proof.
  unfold addVars, keys. cbv zeta. intros Hsome Hne.
  destruct (list_prod (production d) (distribution d)) as [|k0 ks] eqn:Ek;
    [exfalso; apply Hsome; reflexivity|].
  destruct (Nat.eqb _ _) eqn:E; [|reflexivity].
  apply Nat.eqb_eq in E. contradiction.
Qed.

Lemma addVars_twice (d : Data) :
  List.length (transp_cost d) = List.length (keys d) -> ~ NoDup (keys d) ->
  addVars (Model_ "widgets2") (production d) (distribution d) (transp_cost d)
          "prod_ship" = Raise KeyError.
Proof.
  unfold addVars, keys. cbv zeta. intros Hlen Hdup.
  destruct (list_prod (production d) (distribution d)) as [|k0 ks] eqn:Ek;
    [exfalso; apply Hdup; constructor|].
  destruct (Nat.eqb _ _) eqn:E;
    [|apply Nat.eqb_neq in E; contradiction].
  destruct (nodup_by Key_eqb _) eqn:En; [|reflexivity].
  exfalso. apply Hdup. exact (nodup_by_NoDup Key_eqb _ Key_eqb_eq En).
Qed.

End Cell.

(** X1: with each location named once and at least one pair of a facility
    and a location, the run up to the second model ends in the model exactly
    when the capacities are as many as the facilities, the demands as many as
    the locations, the cost rows as many as the pairs, and no pair comes
    twice; the index of the cost rows plays no part.  A wrong count of
    capacities or demands ends it with [ValueError] in the cell of the
    Series; with these right and no pair twice, a wrong count of cost rows
    ends it with [AssertionError]; with the counts right, a pair that comes
    twice ends it with [KeyError]. *)
Theorem widgets2_outcome (d : Data) :
  NoDup (distribution d) -> keys d <> [] ->
  ((exists r, widgets2 d = Ok r) <->
   List.length (max_prod_values d) = List.length (production d) /\
   List.length (n_demand_values d) = List.length (distribution d) /\
   List.length (transp_cost d) = List.length (keys d) /\
   NoDup (keys d)) /\
  (forall r, widgets2 d = Ok r -> r = (widgets2_model d, widgets2_x d)) /\
  (List.length (max_prod_values d) <> List.length (production d) \/
   List.length (n_demand_values d) <> List.length (distribution d) ->
   widgets2 d = Raise ValueError) /\
  (List.length (max_prod_values d) = List.length (production d) ->
   List.length (n_demand_values d) = List.length (distribution d) ->
   NoDup (keys d) ->
   List.length (transp_cost d) <> List.length (keys d) ->
   widgets2 d = Raise AssertionError) /\
  (List.length (max_prod_values d) = List.length (production d) ->
   List.length (n_demand_values d) = List.length (distribution d) ->
   List.length (transp_cost d) = List.length (keys d) ->
   ~ NoDup (keys d) ->
   widgets2 d = Raise KeyError).
Proof.
  intros _ Hsome. split; [|split; [|split; [|split]]].
  - split.
    + intros [r Hr]. destruct (Closed.widgets2_runs d r Hr) as (HP & HD & Hc & Hn).
      split; [exact HP|]. split; [exact HD|]. split; [exact (Hc Hsome) | exact Hn].
    + intros (HP & HD & Hc & Hn). eexists. apply Closed.widgets2_closed.
      split; [exact HP|]. split; [exact HD|]. split; [intros _; exact Hc | exact Hn].
  - intros [M xs] Hr. destruct (Closed.widgets2_inv d M xs Hr) as [-> ->].
    reflexivity.
  - intros H. unfold widgets2. rewrite (Cell.cell_4_raise d H). reflexivity.
  - intros HP HD _ Hne. unfold widgets2. rewrite (Closed.cell_4_Ok d HP HD).
    simpl bind. unfold cell_33. rewrite (Cell.addVars_count d Hsome Hne).
    reflexivity.
  - intros HP HD Hlen Hdup. unfold widgets2. rewrite (Closed.cell_4_Ok d HP HD).
    simpl bind. unfold cell_33. rewrite (Cell.addVars_twice d Hlen Hdup).
    reflexivity.
Qed.

Lemma widgets2_outcome_witness :
  widgets2 (mkData the_production the_distribution the_transp_cost
                   [180; 200; 140; 80] [89; 95; 121; 101; 116; 181] 0.75)
    = Raise ValueError /\
  widgets2 (mkData the_production the_distribution (tl the_transp_cost)
                   [180; 200; 140; 80; 180] [89; 95; 121; 101; 116; 181] 0.75)
    = Raise AssertionError /\
  widgets2 (mkData ["Cleveland"; "Cleveland"]%string the_distribution
                   (firstn 12 the_transp_cost)
                   [200; 200] [89; 95; 121; 101; 116; 181] 0.75)
    = Raise KeyError /\
  exists r, widgets2 displayed_data = Ok r.
Proof.
  pose proof (proj1 (proj2 Scenario.the_data_well_formed)) as HD.
  split; [|split; [|split]].
  - apply (widgets2_outcome
             (mkData the_production the_distribution the_transp_cost
                     [180; 200; 140; 80] [89; 95; 121; 101; 116; 181] 0.75) HD).
    + discriminate.
    + left. simpl. discriminate.
  - apply (widgets2_outcome
             (mkData the_production the_distribution (tl the_transp_cost)
                     [180; 200; 140; 80; 180] [89; 95; 121; 101; 116; 181] 0.75) HD).
    + discriminate.
    + reflexivity.
    + reflexivity.
    + apply NoDup_list_prod;
        [exact (proj1 Scenario.the_data_well_formed) | exact HD].
    + simpl. discriminate.
  - apply (widgets2_outcome
             (mkData ["Cleveland"; "Cleveland"]%string the_distribution
                     (firstn 12 the_transp_cost)
                     [200; 200] [89; 95; 121; 101; 116; 181] 0.75) HD).
    + discriminate.
    + reflexivity.
    + reflexivity.
    + reflexivity.
    + intros Hnd. apply (NoDup_nodup_by Key_eqb _ Key_eqb_eq) in Hnd.
      vm_compute in Hnd. discriminate.
  - apply (widgets2_outcome displayed_data HD); [discriminate|].
    destruct Displayed.well_formed_ as (HP & HD' & Hc & Hn & Ht).
    split; [exact Hc|]. split; [exact Hn|]. split; [exact Ht|].
    apply NoDup_list_prod; assumption.
Defined.

(** X2: once the second cell has run, [x[p, l]] is there exactly for the
    facilities [p] and locations [l] of the two sets: it is then a continuous
    variable named [prod_ship], with lower bound 0 and no upper bound, and
    for the [i]-th facility and the [j]-th location its objective
    coefficient is the value of the cost row number [i] times the number of
    locations plus [j], whatever pair that row names; any other pair raises
    [KeyError]. *)
Theorem x_lookup (d : Data) (M : Model) (xs : tupledict) (p l : string) :
  widgets2 d = Ok (M, xs) ->
  (forall i j, nth_error (production d) i = Some p ->
               nth_error (distribution d) j = Some l ->
     exists c, nth_error (map snd (transp_cost d))
                         (i * List.length (distribution d) + j) = Some c /\
               getitem xs (p, l) = Ok (mkVar "prod_ship" (p, l) 0 None c CONTINUOUS)) /\
  (~ (In p (production d) /\ In l (distribution d)) ->
   getitem xs (p, l) = Raise KeyError).
Proof.
  intros Hrun. destruct (Closed.widgets2_runs d _ Hrun) as (_ & _ & Hlen & Hnd).
  destruct (Closed.widgets2_inv d M xs Hrun) as [_ ->]. split.
  - intros i j Hp Hl.
    assert (Hk : nth_error (keys d) (i * List.length (distribution d) + j)
                 = Some ((p, l) : Key))
      by exact (Cell.nth_error_list_prod _ _ i j p l Hp Hl).
    destruct (nth_error (map snd (transp_cost d))
                        (i * List.length (distribution d) + j)) as [c|] eqn:Ec.
    + exists c. split; [reflexivity|].
      unfold widgets2_x.
      rewrite (getitem_map (prod_ship d) (keys d) (p, l) (nth_error_In _ _ Hk)).
      unfold prod_ship, cost_of.
      rewrite (Cell.loc_combine_nth Key_eqb _ _ _ _ c Key_eqb_eq Hnd Hk Ec).
      reflexivity.
    + exfalso. apply nth_error_None in Ec. rewrite length_map, Hlen in Ec.
      * assert (Hi : (i * List.length (distribution d) + j
                      < List.length (keys d))%nat).
        { apply nth_error_Some. rewrite Hk. discriminate. }
        lia.
      * intros E. rewrite E in Hk. destruct (i * _ + j)%nat; discriminate.
  - intros Hnot. apply Cell.getitem_map_out.
    intros Hk. apply Hnot. apply in_prod_iff in Hk. exact Hk.
Qed.

Lemma x_lookup_witness :
  getitem (widgets2_x displayed_data) ("Birmingham", "Nashville")%string =
    Ok (mkVar "prod_ship" ("Birmingham", "Nashville")%string 0 None 4.13 CONTINUOUS) /\
  pd.loc Key_eqb (transp_cost displayed_data) ("Birmingham", "Nashville")%string
    = Ok 1.53 /\
  getitem (widgets2_x displayed_data) ("Nashville", "Birmingham")%string
    = Raise KeyError.
Proof.
  destruct (x_lookup displayed_data (widgets2_model displayed_data)
              (widgets2_x displayed_data) "Birmingham" "Nashville"
              Displayed.displayed_widgets2) as [Hin _].
  destruct (x_lookup displayed_data (widgets2_model displayed_data)
              (widgets2_x displayed_data) "Nashville" "Birmingham"
              Displayed.displayed_widgets2) as [_ Hout].
  split; [|split].
  - destruct (Hin 3%nat 3%nat eq_refl eq_refl) as [c [Hc Hx]].
    vm_compute in Hc. injection Hc as <-. exact Hx.
  - reflexivity.
  - apply Hout. intros [Hp _]. vm_compute in Hp.
    repeat (destruct Hp as [Hp|Hp]; [discriminate|]). exact Hp.
Defined.

(** X3: with no location named twice, the constraints of the second model
    follow the locations one by one: the [i]-th constraint is
    [meet_demand] of the [i]-th location, asks the sum of the shipments of
    all facilities into it to be at least the [i]-th demand value, and there
    are as many constraints as locations. *)
Theorem constraints_follow_locations (d : Data) (M : Model) (xs : tupledict)
    (i : nat) (l : string) :
  widgets2 d = Ok (M, xs) ->
  NoDup (distribution d) ->
  nth_error (distribution d) i = Some l ->
  List.length (Constrs M) = List.length (distribution d) /\
  exists v, nth_error (n_demand_values d) i = Some v /\
            nth_error (Constrs M) i =
            Some (mkConstr "meet_demand" l
                           (map (fun p => (1, (p, l))) (production d))
                           GREATER_EQUAL v).
Proof.
  intros Hrun Hnd Hl. destruct (Closed.widgets2_runs d _ Hrun) as (_ & Hlen & _).
  destruct (Closed.widgets2_inv d M xs Hrun) as [-> _].
  unfold widgets2_model. simpl Constrs. split; [apply length_map|].
  destruct (nth_error (n_demand_values d) i) as [v|] eqn:Ev.
  - exists v. split; [reflexivity|].
    rewrite nth_error_map, Hl. simpl. unfold meet_demand. do 2 f_equal.
    unfold demand_of. rewrite (Closed.n_demand_Ok d Hlen). simpl.
    rewrite (Cell.loc_combine_nth String.eqb _ _ i l v String.eqb_eq Hnd Hl Ev).
    reflexivity.
  - exfalso. apply nth_error_None in Ev.
    assert (Hi : (i < List.length (distribution d))%nat).
    { apply nth_error_Some. rewrite Hl. discriminate. }
    lia.
Qed.

Lemma constraints_follow_locations_witness :
  nth_error (Constrs (widgets2_model the_data)) 3 =
  Some (mkConstr "meet_demand" "Nashville"
                 (map (fun p => (1, (p, "Nashville"%string))) the_production)
                 GREATER_EQUAL 101).
Proof.
  destruct (constraints_follow_locations the_data (widgets2_model the_data)
              (widgets2_x the_data) 3 "Nashville" Scenario.the_widgets2
              (proj1 (proj2 Scenario.the_data_well_formed)) eq_refl)
    as [_ [v [Hv Hc]]].
  vm_compute in Hv. injection Hv as <-. exact Hc.
Defined.

(** X5: when a facility exists and no pair was given a negative cost, every
    solution [optimize] returns for the second model costs the same: each
    location's demand, if positive, times the least of the costs [addVars]
    gave the pairs of that location.  The capacities play no part. *)
Theorem m2_optimal_cost (d : Data) (M : Model) (X : Solution) :
  NoDup (production d) -> NoDup (distribution d) -> production d <> [] ->
  (forall k, In k (keys d) -> 0 <= cost_of d k) ->
  m2 d = Ok M ->
  optimize M (OPTIMAL X) ->
  total_cost M X ==
    Qsum (fun l => cost_of d (cheapest d l, l) * pos_part (demand_of d l))
         (distribution d) /\
  forall l, In (cheapest d l) (production d) /\
            forall p, In p (production d) ->
                      cost_of d (cheapest d l, l) <= cost_of d (p, l).
Proof.
  intros HP _ Hne Hcost HM Hopt. apply Closed.m2_inv in HM. subst M. split.
  - exact (Optimum.optimal_value d X HP Hne Hcost Hopt).
  - intros l. exact (Plan.cheapest_spec d l Hne).
Qed.

Lemma m2_optimal_cost_witness :
  optimize (widgets2_model displayed_data) (OPTIMAL (cheapest_plan displayed_data)) /\
  cheapest displayed_data "Nashville" = "Cleveland"%string /\
  cost_of displayed_data ("Cleveland", "Nashville")%string == 1.53 /\
  total_cost (widgets2_model displayed_data) (cheapest_plan displayed_data)
    == 1546.64.
Proof.
  split; [exact Displayed.plan_optimal|].
  split; [vm_compute; reflexivity|].
  split; [vm_compute; reflexivity|].
  rewrite (proj1 (m2_optimal_cost displayed_data (widgets2_model displayed_data)
                    (cheapest_plan displayed_data)
                    (proj1 Displayed.well_formed_)
                    (proj1 (proj2 Displayed.well_formed_))
                    Scenario.the_production_nonempty Displayed.costs_nonneg
                    Displayed.displayed_m2 Displayed.plan_optimal)).
  vm_compute. reflexivity.
Defined.

(** X6: under the same conditions, a solution [optimize] returns for the
    second model ships nothing from a facility to a location when [addVars]
    gave another facility's pair for that location a strictly lower cost,
    and a location whose least cost is positive receives exactly its demand
    (nothing, if the demand is negative). *)
Theorem m2_ships_from_cheapest (d : Data) (M : Model) (X : Solution)
    (p l : string) :
  NoDup (production d) -> NoDup (distribution d) -> production d <> [] ->
  (forall k, In k (keys d) -> 0 <= cost_of d k) ->
  m2 d = Ok M ->
  optimize M (OPTIMAL X) ->
  In p (production d) -> In l (distribution d) ->
  (cost_of d (cheapest d l, l) < cost_of d (p, l) -> X (p, l) == 0) /\
  (0 < cost_of d (cheapest d l, l) ->
   ship_in d X l == pos_part (demand_of d l)).
Proof.
  intros HP _ Hne Hcost HM Hopt Hp Hl. apply Closed.m2_inv in HM. subst M.
  split.
  - exact (Optimum.noncheapest_zero d X p l HP Hne Hcost Hopt Hp Hl).
  - exact (Optimum.exact_demand d X l HP Hne Hcost Hopt Hl).
Qed.

Lemma m2_ships_from_cheapest_witness :
  cheapest displayed_data "Nashville" = "Cleveland"%string /\
  cost_of displayed_data (cheapest displayed_data "Nashville", "Nashville"%string)
    < cost_of displayed_data ("Birmingham", "Nashville")%string /\
  cheapest_plan displayed_data ("Birmingham", "Nashville")%string == 0.
Proof.
  split; [vm_compute; reflexivity|].
  split; [vm_compute; reflexivity|].
  apply (m2_ships_from_cheapest displayed_data (widgets2_model displayed_data)
           (cheapest_plan displayed_data) "Birmingham" "Nashville"
           (proj1 Displayed.well_formed_)
           (proj1 (proj2 Displayed.well_formed_))
           Scenario.the_production_nonempty Displayed.costs_nonneg
           Displayed.displayed_m2 Displayed.plan_optimal).
  - vm_compute. tauto.
  - vm_compute. tauto.
  - vm_compute. reflexivity.
Defined.

(** X7: a pair of negative cost leaves the second model without an optimal
    solution: with nothing to hold a facility's shipments down, the pair is a
    ray along which the cost falls without end, and [optimize] can only end
    with status unbounded or infeasible-or-unbounded, whatever the
    capacities. *)
Theorem negative_cost_no_optimum (d : Data) (M : Model) (k0 : Key) :
  NoDup (production d) -> NoDup (distribution d) ->
  m2 d = Ok M ->
  In k0 (keys d) -> cost_of d k0 < 0 ->
  (forall X, ~ optimal M X) /\
  improving_ray M (fun k => if Key_eqb k0 k then 1 else 0) /\
  forall o, optimize M o -> o = UNBOUNDED \/ o = INF_OR_UNBD.
Proof.
  intros HP HD HM Hk Hneg. apply Closed.m2_inv in HM. subst M.
  assert (Hne : production d <> []).
  { intros E. unfold keys in Hk. rewrite E in Hk. destruct Hk. }
  pose proof (Ray.negative_cost_unbounded d k0 HP HD Hne Hk Hneg) as Hunb.
  split; [intros X; exact (Solver.unbounded_no_optimum _ X Hunb)|].
  split; [exact (Ray.negative_cost_ray d k0 (NoDup_list_prod _ _ HP HD) Hk Hneg)|].
  intros o Ho. destruct o as [X| | |]; simpl in Ho.
  - exfalso. exact (Solver.unbounded_no_optimum _ X Hunb Ho).
  - exfalso. destruct Hunb as [[Y HY] _]. exact (Ho Y HY).
  - left. reflexivity.
  - right. reflexivity.
Qed.

Lemma negative_cost_no_optimum_witness :
  m2 subsidised = Ok (widgets2_model subsidised) /\
  forall o, optimize (widgets2_model subsidised) o ->
            o = UNBOUNDED \/ o = INF_OR_UNBD.
Proof.
  assert (HM : m2 subsidised = Ok (widgets2_model subsidised))
    by (vm_compute; reflexivity).
  split; [exact HM|].
  apply (negative_cost_no_optimum subsidised (widgets2_model subsidised)
           ("Cleveland", "Columbia")%string).
  - repeat constructor. intros [].
  - repeat constructor. intros [].
  - exact HM.
  - left. reflexivity.
  - vm_compute. reflexivity.
Defined.

(** X8: with no facility the second cell still builds a model, with no
    variable and one constraint [0 >= demand] per location: as soon as one
    demand is positive, [optimize] can only end with status infeasible. *)
Theorem no_facility_only_infeasible (d : Data) (M : Model) (l : string) :
  production d = [] ->
  m2 d = Ok M ->
  In l (distribution d) -> 0 < demand_of d l ->
  Vars M = [] /\
  List.length (Constrs M) = List.length (distribution d) /\
  optimize M INFEASIBLE /\ forall o, optimize M o -> o = INFEASIBLE.
Proof.
  intros HP HM Hl Hpos. apply Closed.m2_inv in HM. subst M.
  assert (Hinf : optimize (widgets2_model d) INFEASIBLE)
    by exact (Ray.no_facility_infeasible d l HP Hl Hpos).
  assert (Hvars : Vars (widgets2_model d) = []).
  { unfold widgets2_model, keys. rewrite HP. reflexivity. }
  split; [exact Hvars|]. split; [|split].
  - unfold widgets2_model. simpl. apply length_map.
  - exact Hinf.
  - intros o Ho. destruct o as [X| | |]; simpl in Ho.
    + exfalso. exact (Hinf X (proj1 Ho)).
    + reflexivity.
    + exfalso. destruct Ho as [r Hr]. exact (Solver.no_vars_no_ray _ r Hvars Hr).
    + exfalso. destruct Ho as [r Hr]. exact (Solver.no_vars_no_ray _ r Hvars Hr).
Qed.

Lemma no_facility_only_infeasible_witness :
  m2 no_facilities = Ok (widgets2_model no_facilities) /\
  optimize (widgets2_model no_facilities) INFEASIBLE.
Proof.
  assert (HM : m2 no_facilities = Ok (widgets2_model no_facilities))
    by (vm_compute; reflexivity).
  split; [exact HM|].
  apply (no_facility_only_infeasible no_facilities (widgets2_model no_facilities)
           "Columbia" eq_refl HM).
  - left. reflexivity.
  - vm_compute. reflexivity.
Defined.

(** X9: in every solution [optimize] returns for the second model, what
    leaves the facilities is what reaches the locations, and it is at least
    the sum of the demands. *)
Theorem shipped_covers_demand (d : Data) (M : Model) (X : Solution) :
  m2 d = Ok M ->
  optimize M (OPTIMAL X) ->
  Qsum (ship_out d X) (production d) == Qsum (ship_in d X) (distribution d) /\
  Qsum (demand_of d) (distribution d) <= Qsum (ship_out d X) (production d).
Proof.
  intros HM [HX _]. apply Closed.m2_inv in HM. subst M.
  apply Widgets2.feasible_iff in HX. destruct HX as [_ Hdem].
  assert (E : Qsum (ship_out d X) (production d) ==
              Qsum (ship_in d X) (distribution d)).
  { unfold ship_out, ship_in.
    exact (Qsum_swap (fun p l => X (p, l)) (production d) (distribution d)). }
  split; [exact E|]. rewrite E. apply Qsum_le. exact Hdem.
Qed.

Lemma shipped_covers_demand_witness :
  optimize (widgets2_model the_data) (OPTIMAL (cheapest_plan the_data)) /\
  Qsum (demand_of the_data) (distribution the_data)
  <= Qsum (ship_out the_data (cheapest_plan the_data)) (production the_data).
Proof.
  split; [exact Scenario.the_plan_optimal|].
  exact (proj2 (shipped_covers_demand the_data (widgets2_model the_data)
                  (cheapest_plan the_data) Scenario.the_m2
                  Scenario.the_plan_optimal)).
Defined.

(** *** Labels in order *)

Module Labels.
Import pd.

Lemma ascii_compare_trans (a b c : Ascii.ascii) (r : comparison) :
  Ascii.compare a b = Eq \/ Ascii.compare a b = r ->
  Ascii.compare b c = Eq \/ Ascii.compare b c = r ->
  Ascii.compare a c = Eq \/ Ascii.compare a c = r.
Proof.
  unfold Ascii.compare.
  intros [Hab|Hab] [Hbc|Hbc].
  - apply N.compare_eq_iff in Hab, Hbc. left. apply N.compare_eq_iff. congruence.
  - apply N.compare_eq_iff in Hab. rewrite Hab. right. exact Hbc.
  - apply N.compare_eq_iff in Hbc. rewrite <- Hbc. right. exact Hab.
  - destruct r.
    + left. apply N.compare_eq_iff in Hab, Hbc. apply N.compare_eq_iff. congruence.
    + right. rewrite N.compare_lt_iff in *. exact (N.lt_trans _ _ _ Hab Hbc).
    + right. rewrite N.compare_gt_iff in *. exact (N.lt_trans _ _ _ Hbc Hab).
Qed.

Lemma label_lt_trans (s1 s2 s3 : string) :
  label_lt s1 s2 -> label_lt s2 s3 -> label_lt s1 s3.
Proof.
  unfold label_lt. revert s2 s3.
  induction s1 as [|a s1 IH]; intros [|b s2] [|c s3]; simpl; try discriminate;
    try reflexivity.
  intros H12 H23.
  destruct (Ascii.compare a b) eqn:Eab; try discriminate;
    destruct (Ascii.compare b c) eqn:Ebc; try discriminate.
  - destruct (ascii_compare_trans a b c Eq (or_introl Eab) (or_introl Ebc)) as [E|E];
      rewrite E; exact (IH s2 s3 H12 H23).
  - destruct (ascii_compare_trans a b c Lt (or_introl Eab) (or_intror Ebc)) as [E|E].
    + unfold Ascii.compare in *. apply N.compare_eq_iff in Eab, E.
      rewrite <- Eab, E in Ebc. rewrite N.compare_refl in Ebc. discriminate.
    + rewrite E. reflexivity.
  - destruct (ascii_compare_trans a b c Lt (or_intror Eab) (or_introl Ebc)) as [E|E].
    + unfold Ascii.compare in *. apply N.compare_eq_iff in Ebc, E.
      rewrite E, <- Ebc in Eab. rewrite N.compare_refl in Eab. discriminate.
    + rewrite E. reflexivity.
  - destruct (ascii_compare_trans a b c Lt (or_intror Eab) (or_intror Ebc)) as [E|E].
    + unfold Ascii.compare in *. apply N.compare_eq_iff in E.
      rewrite N.compare_lt_iff in Eab, Ebc. rewrite E in Eab.
      exfalso. exact (N.lt_irrefl _ (N.lt_trans _ _ _ Eab Ebc)).
    + rewrite E. reflexivity.
Qed.

Lemma label_lt_irrefl (s : string) : ~ label_lt s s.
Proof.
  unfold label_lt. intros H. pose proof (String.compare_antisym s s) as E.
  rewrite H in E. discriminate.
Qed.

Lemma leb_lt (a b : string) :
  (a =? b)%string = false -> (a <=? b)%string = true -> label_lt a b.
Proof.
  unfold String.leb, label_lt. intros Hne Hle.
  destruct (a ?= b)%string eqn:E; [|reflexivity|discriminate].
  apply String.compare_eq_iff in E. subst. rewrite String.eqb_refl in Hne.
  discriminate.
Qed.

Lemma not_leb_lt (a b : string) : (a <=? b)%string = false -> label_lt b a.
Proof.
  unfold String.leb, label_lt. intros Hle.
  rewrite String.compare_antisym.
  destruct (a ?= b)%string; try discriminate. reflexivity.
Qed.

Lemma In_insert_label (a x : string) (l : list string) :
  In x (insert_label a l) <-> x = a \/ In x l.
Proof.
  induction l as [|b l IH]; simpl.
  - intuition.
  - destruct (a =? b)%string eqn:E.
    + apply String.eqb_eq in E. subst. simpl. intuition.
    + destruct (a <=? b)%string; simpl; [intuition|].
      rewrite IH. intuition.
Qed.

Lemma In_sorted_labels (x : string) (l : list string) :
  In x (sorted_labels l) <-> In x l.
Proof.
  induction l as [|a l IH]; simpl; [reflexivity|].
  rewrite In_insert_label, IH. intuition.
Qed.

Lemma insert_label_sorted (a : string) (l : list string) :
  StronglySorted label_lt l -> StronglySorted label_lt (insert_label a l).
Proof.
  induction 1 as [|b l Hs IH Hb]; simpl.
  - constructor; constructor.
  - destruct (a =? b)%string eqn:E; [constructor; assumption|].
    destruct (a <=? b)%string eqn:Ele.
    + pose proof (leb_lt a b E Ele) as Hab.
      constructor; [constructor; assumption|].
      constructor; [exact Hab|].
      rewrite Forall_forall in *. intros x Hx.
      exact (label_lt_trans a b x Hab (Hb x Hx)).
    + pose proof (not_leb_lt a b Ele) as Hba.
      constructor; [exact IH|].
      rewrite Forall_forall in *. intros x Hx.
      apply In_insert_label in Hx. destruct Hx as [->|Hx];
        [exact Hba | exact (Hb x Hx)].
Qed.

Lemma sorted_labels_sorted (l : list string) :
  StronglySorted label_lt (sorted_labels l).
Proof.
  induction l as [|a l IH]; simpl; [constructor|].
  apply insert_label_sorted. exact IH.
Qed.

Lemma sorted_NoDup (l : list string) : StronglySorted label_lt l -> NoDup l.
Proof.
  induction 1 as [|a l Hs IH Ha]; constructor; [|exact IH].
  intros Hin. rewrite Forall_forall in Ha.
  exact (label_lt_irrefl a (Ha a Hin)).
Qed.

Lemma dict_get_inv {L : Type} (eqb : L -> L -> bool) (s : list (L * Q))
    (l : L) (v : Q) :
  (forall a b, eqb a b = true <-> a = b) ->
  dict_get eqb s l = Some v -> In (l, v) s.
Proof.
  intros Heqb. induction s as [|[l' v'] s IH]; simpl; [discriminate|].
  destruct (eqb l' l) eqn:E.
  - intros H. injection H as ->. apply Heqb in E. subst. left. reflexivity.
  - intros H. right. exact (IH H).
Qed.

Lemma dict_get_NoDup {L : Type} (eqb : L -> L -> bool) (s : list (L * Q))
    (l : L) (v : Q) :
  (forall a b, eqb a b = true <-> a = b) ->
  NoDup (map fst s) -> In (l, v) s -> dict_get eqb s l = Some v.
Proof.
  intros Heqb. induction s as [|[l' v'] s IH]; simpl; [intros _ []|].
  intros Hnd [E|Hin].
  - injection E as -> ->. rewrite (proj2 (Heqb l l) eq_refl). reflexivity.
  - inversion Hnd as [|? ? Hnot Hnd']. subst.
    destruct (eqb l' l) eqn:E; [|exact (IH Hnd' Hin)].
    apply Heqb in E. subst l'. exfalso. apply Hnot.
    apply in_map_iff. exists (l, v). split; [reflexivity | exact Hin].
Qed.

Lemma dict_get_None {L : Type} (eqb : L -> L -> bool) (s : list (L * Q)) (l : L) :
  (forall a b, eqb a b = true <-> a = b) ->
  dict_get eqb s l = None -> ~ In l (map fst s).
Proof.
  intros Heqb. induction s as [|[l' v'] s IH]; simpl; [intros _ []|].
  destruct (eqb l' l) eqn:E; [discriminate|].
  intros H [Hl|Hl]; [|exact (IH H Hl)].
  subst. rewrite (proj2 (Heqb l l) eq_refl) in E. discriminate.
Qed.

End Labels.

(** *** The pivoted cost table *)

Module PivotFacts.
Import pd.

Lemma pivot_Ok (costs : Series Key) (t : Pivot) :
  pivot costs = Ok t ->
  NoDup (index costs) /\
  columns t = sorted_labels (map snd (index costs)) /\
  table t = map (fun p => (p, map (fun l => dict_get Key_eqb costs (p, l))
                                  (columns t)))
                (sorted_labels (map fst (index costs))).
Proof.
  unfold pivot. destruct (nodup_by Key_eqb (index costs)) eqn:E; [|discriminate].
  intros H. injection H as <-. simpl. split; [|split; reflexivity].
  exact (nodup_by_NoDup Key_eqb _ Key_eqb_eq E).
Qed.

Lemma line_cell (costs : Series Key) (cols : list string) (p l : string) (j : nat) :
  nth_error cols j = Some l ->
  nth_error (map (fun l' => dict_get Key_eqb costs (p, l')) cols) j =
  Some (dict_get Key_eqb costs (p, l)).
Proof. intros H. rewrite nth_error_map, H. reflexivity. Qed.

End PivotFacts.

(** X10: the pivoted cost table shows the costs and nothing else: each cost
    stands in the line of its facility under the column of its location,
    every number in the table is the cost of the pair of its line and
    column, and an empty cell means the pair has no cost. *)
Theorem pivot_round_trip (costs : pd.Series Key) (t : pd.Pivot) :
  pd.pivot costs = Ok t ->
  (forall p l c, In ((p, l), c) costs ->
     exists i j line, nth_error (pd.table t) i = Some (p, line) /\
                      nth_error (pd.columns t) j = Some l /\
                      nth_error line j = Some (Some c)) /\
  (forall i j p l line o,
     nth_error (pd.table t) i = Some (p, line) ->
     nth_error (pd.columns t) j = Some l ->
     nth_error line j = Some o ->
     match o with
     | Some c => In ((p, l), c) costs
     | None => ~ In (p, l) (pd.index costs)
     end).
Proof.
  intros Ht. destruct (PivotFacts.pivot_Ok costs t Ht) as (Hnd & Hcols & Htab).
  split.
  - intros p l c Hin.
    assert (Hk : In (p, l) (pd.index costs)).
    { apply in_map_iff. exists ((p, l), c). split; [reflexivity | exact Hin]. }
    assert (Hp : In p (pd.sorted_labels (map fst (pd.index costs)))).
    { apply Labels.In_sorted_labels. apply in_map_iff.
      exists (p, l). split; [reflexivity | exact Hk]. }
    assert (Hl : In l (pd.columns t)).
    { rewrite Hcols. apply Labels.In_sorted_labels. apply in_map_iff.
      exists (p, l). split; [reflexivity | exact Hk]. }
    destruct (In_nth_error _ _ Hp) as [i Hi].
    destruct (In_nth_error _ _ Hl) as [j Hj].
    exists i, j, (map (fun l' => pd.dict_get Key_eqb costs (p, l')) (pd.columns t)).
    split; [|split].
    + rewrite Htab, nth_error_map, Hi. reflexivity.
    + exact Hj.
    + rewrite (PivotFacts.line_cell costs _ p l j Hj). f_equal.
      exact (Labels.dict_get_NoDup Key_eqb costs (p, l) c Key_eqb_eq Hnd Hin).
  - intros i j p l line o Hi Hj Ho.
    rewrite Htab, nth_error_map in Hi.
    destruct (nth_error (pd.sorted_labels (map fst (pd.index costs))) i)
      as [p'|]; [|discriminate].
    simpl in Hi. injection Hi as -> <-.
    rewrite (PivotFacts.line_cell costs _ p l j Hj) in Ho. injection Ho as <-.
    destruct (pd.dict_get Key_eqb costs (p, l)) as [c|] eqn:E.
    + exact (Labels.dict_get_inv Key_eqb costs (p, l) c Key_eqb_eq E).
    + exact (Labels.dict_get_None Key_eqb costs (p, l) Key_eqb_eq E).
Qed.

Lemma pivot_round_trip_witness :
  exists t i j line,
    pd.pivot the_transp_cost = Ok t /\
    nth_error (pd.table t) i = Some ("Birmingham"%string, line) /\
    nth_error (pd.columns t) j = Some "Nashville"%string /\
    nth_error line j = Some (Some 1.53).
Proof.
  destruct (pd.pivot the_transp_cost) as [t|e] eqn:Et;
    [|vm_compute in Et; discriminate].
  destruct (proj1 (pivot_round_trip the_transp_cost t Et)
              "Birmingham"%string "Nashville"%string 1.53)
    as (i & j & line & Hi & Hj & Hc).
  - vm_compute. tauto.
  - exists t, i, j, line. repeat split; assumption.
Defined.

(** X12: the pivoted table is a rectangle with each facility of the cost
    index on one line and each location under one column, lines and columns
    in increasing order of their labels. *)
Theorem pivot_axes (costs : pd.Series Key) (t : pd.Pivot) :
  pd.pivot costs = Ok t ->
  StronglySorted pd.label_lt (map fst (pd.table t)) /\
  StronglySorted pd.label_lt (pd.columns t) /\
  NoDup (map fst (pd.table t)) /\ NoDup (pd.columns t) /\
  (forall p, In p (map fst (pd.table t)) <-> exists l, In (p, l) (pd.index costs)) /\
  (forall l, In l (pd.columns t) <-> exists p, In (p, l) (pd.index costs)) /\
  Forall (fun line => List.length (snd line) = List.length (pd.columns t))
         (pd.table t).
Proof.
  intros Ht. destruct (PivotFacts.pivot_Ok costs t Ht) as (_ & Hcols & Htab).
  assert (Hrows : map fst (pd.table t) =
                  pd.sorted_labels (map fst (pd.index costs))).
  { rewrite Htab, map_map. simpl. apply map_id. }
  assert (Hsr : StronglySorted pd.label_lt (map fst (pd.table t))).
  { rewrite Hrows. apply Labels.sorted_labels_sorted. }
  assert (Hsc : StronglySorted pd.label_lt (pd.columns t)).
  { rewrite Hcols. apply Labels.sorted_labels_sorted. }
  split; [exact Hsr|]. split; [exact Hsc|].
  split; [exact (Labels.sorted_NoDup _ Hsr)|].
  split; [exact (Labels.sorted_NoDup _ Hsc)|].
  split; [|split].
  - intros p. rewrite Hrows, Labels.In_sorted_labels, in_map_iff. split.
    + intros [[p' l] [E Hin]]. simpl in E. subst. exists l. exact Hin.
    + intros [l Hin]. exists (p, l). split; [reflexivity | exact Hin].
  - intros l. rewrite Hcols, Labels.In_sorted_labels, in_map_iff. split.
    + intros [[p l'] [E Hin]]. simpl in E. subst. exists p. exact Hin.
    + intros [p Hin]. exists (p, l). split; [reflexivity | exact Hin].
  - rewrite Htab. apply Forall_forall. intros line Hin.
    apply in_map_iff in Hin. destruct Hin as [p [<- _]]. simpl.
    apply length_map.
Qed.

Lemma pivot_axes_witness :
  exists t, pd.pivot the_transp_cost = Ok t /\
            NoDup (map fst (pd.table t)) /\ NoDup (pd.columns t).
Proof.
  destruct (pd.pivot the_transp_cost) as [t|e] eqn:Et;
    [|vm_compute in Et; discriminate].
  exists t. split; [reflexivity|].
  destruct (pivot_axes the_transp_cost t Et) as (_ & _ & Hr & Hc & _).
  split; assumption.
Defined.

(** *** The solution read back pair by pair *)

Module Frames.
Import Notebook gp.

Lemma xvals_intro (d : Data) (X : Solution) (k : Key) :
  In k (keys d) -> negb (Qle_bool (X k) 0) = true ->
  In (k, X k) (xvals (widgets2_x d) X).
Proof.
  intros Hk Hpos. unfold xvals, widgets2_x. apply in_map_iff.
  exists (k, prod_ship d k). split; [reflexivity|].
  apply filter_In. split; [|exact Hpos].
  apply in_map_iff. exists k. split; [reflexivity | exact Hk].
Qed.

Lemma filter_all {A : Type} (b : A -> bool) (l : list A) :
  (forall a, In a l -> b a = true) -> filter b l = l.
Proof.
  induction l as [|a l IH]; intros H; [reflexivity|]. simpl.
  rewrite (H a (or_introl eq_refl)), IH; [reflexivity|].
  intros c Hc. apply H. right. exact Hc.
Qed.

End Frames.

(** X15: where every pair of a facility and a location has a row in the cost
    table, the two ways of reading the second model's solution agree: the
    dictionary of the variables with a positive value holds a pair with a
    value exactly when the frame of the rows with a positive shipment holds
    a row of that pair with that shipment. *)
Theorem xvals_match_rows (d : Data) (M : Model) (xs : tupledict) (X : Solution)
    (k : Key) (v : Q) :
  NoDup (pd.index (transp_cost d)) ->
  (forall k', In k' (keys d) -> In k' (pd.index (transp_cost d))) ->
  widgets2 d = Ok (M, xs) ->
  (In (k, v) (xvals xs X) <->
   exists c, In (pd.mkRow k c (Some v)) (pd.positive_rows (sol2 d xs X))).
Proof.
  intros _ Hsub Hrun.
  destruct (Closed.widgets2_inv d M xs Hrun) as [_ ->].
  unfold xvals, pd.positive_rows, widgets2_x.
  rewrite RoundTrip.sol2_closed. split.
  - intros Hin. apply in_map_iff in Hin. destruct Hin as [[k' w] [E Hin]].
    apply filter_In in Hin. destruct Hin as [Hin Hpos].
    apply in_map_iff in Hin. destruct Hin as [k'' [E' Hk]].
    injection E' as <- <-. simpl in E, Hpos. injection E as <- <-.
    specialize (Hsub _ Hk). apply in_map_iff in Hsub.
    destruct Hsub as [[k0 c] [E Hc]]. simpl in E. subst k0.
    exists c. apply filter_In. split.
    + apply in_map_iff. exists (k'', c). split; [|exact Hc]. simpl.
      rewrite (proj2 (RoundTrip.in_keys_iff d k'') Hk). reflexivity.
    + unfold pd.shipment_pos. simpl. exact Hpos.
  - intros [c Hin]. apply filter_In in Hin. destruct Hin as [Hin Hpos].
    apply in_map_iff in Hin. destruct Hin as [[k' c'] [E Hc]]. simpl in E.
    destruct (in_keys d k') eqn:Ek; [|discriminate].
    injection E as -> -> <-. apply RoundTrip.in_keys_iff in Ek.
    apply in_map_iff. exists (k, prod_ship d k). split; [reflexivity|].
    apply filter_In. split.
    + apply in_map_iff. exists k. split; [reflexivity | exact Ek].
    + unfold pd.shipment_pos in Hpos. simpl in Hpos. exact Hpos.
Qed.

Lemma xvals_match_rows_witness :
  exists c, In (pd.mkRow ("Birmingham", "Nashville")%string c
                         (Some (cheapest_plan the_data ("Birmingham", "Nashville")%string)))
               (pd.positive_rows (sol2 the_data (widgets2_x the_data)
                                       (cheapest_plan the_data))).
Proof.
  apply (proj1 (xvals_match_rows the_data (widgets2_model the_data)
                  (widgets2_x the_data) (cheapest_plan the_data)
                  ("Birmingham", "Nashville")%string _
                  Scenario.the_index_NoDup Scenario.the_keys_listed
                  Scenario.the_widgets2)).
  apply Frames.xvals_intro.
  - vm_compute. tauto.
  - vm_compute. reflexivity.
Defined.

(** X16: [pd.Series(values, index = labels)] succeeds exactly when there are
    as many values as labels; the Series then carries the labels as its
    index, gives under the [i]-th label the [i]-th value when no label is
    repeated, and raises [KeyError] for a label it does not have. *)
Theorem series_lookup (values : list Q) (labels : list string) :
  (List.length values <> List.length labels ->
   pd.Series_ values labels = Raise ValueError) /\
  (List.length values = List.length labels ->
   exists s, pd.Series_ values labels = Ok s /\
             pd.index s = labels /\
             (NoDup labels ->
              forall i l v, nth_error labels i = Some l ->
                            nth_error values i = Some v ->
                            pd.loc String.eqb s l = Ok v) /\
             (forall l, ~ In l labels -> pd.loc String.eqb s l = Raise KeyError)).
Proof.
  unfold pd.Series_. split.
  - intros Hne. destruct (Nat.eqb _ _) eqn:E; [|reflexivity].
    apply Nat.eqb_eq in E. contradiction.
  - intros Hlen. rewrite Hlen, Nat.eqb_refl.
    exists (combine labels values). split; [reflexivity|].
    split; [exact (index_combine labels values Hlen)|]. split.
    + intros Hnd i l v Hl Hv. exact (Cell.loc_combine_nth String.eqb _ _ i l v String.eqb_eq Hnd Hl Hv).
    + intros l Hnot.
      destruct (pd.loc String.eqb (combine labels values) l) as [v|e] eqn:E.
      * exfalso. apply Hnot. apply (loc_inv String.eqb String.eqb_eq) in E.
        exact (in_combine_l _ _ _ _ E).
      * clear Hnot Hlen. revert values E.
        induction labels as [|a labels IH]; intros [|w values]; simpl;
          try (intros H; injection H as <-; reflexivity).
        destruct (String.eqb a l); [discriminate|]. intros H.
        exact (IH values H).
Qed.

Lemma series_lookup_witness :
  exists s, n_demand the_data = Ok s /\
            pd.loc String.eqb s "Nashville"%string = Ok 101 /\
            pd.loc String.eqb s "Birmingham"%string = Raise KeyError.
Proof.
  destruct (proj2 (series_lookup (n_demand_values the_data)
                     (distribution the_data)) eq_refl)
    as (s & Hs & _ & Hget & Hmiss).
  exists s. split; [exact Hs|]. split.
  - apply (Hget (proj1 (proj2 Scenario.the_data_well_formed)) 3%nat);
      reflexivity.
  - apply Hmiss. vm_compute. intros H.
    repeat (destruct H as [H|H]; [discriminate|]). exact H.
Defined.

(** X17: as soon as a facility exists the second model has a feasible plan,
    whatever the demands and the capacities: [optimize] never ends on it
    with status infeasible, also when the demands exceed all capacity. *)
Theorem m2_never_infeasible (d : Data) (M : Model) :
  NoDup (production d) -> NoDup (distribution d) -> production d <> [] ->
  m2 d = Ok M ->
  feasible M (cheapest_plan d) /\ ~ optimize M INFEASIBLE.
Proof.
  intros HP _ Hne HM. apply Closed.m2_inv in HM. subst M.
  pose proof (Plan.cheapest_plan_feasible d HP Hne) as Hfeas.
  split; [exact Hfeas|]. intros Hinf. exact (Hinf _ Hfeas).
Qed.

Lemma m2_never_infeasible_witness :
  Qsum (fun v => v) (max_prod_values bad_numbers)
    < Qsum (fun v => v) (n_demand_values bad_numbers) /\
  ~ optimize (widgets2_model bad_numbers) INFEASIBLE.
Proof.
  split; [vm_compute; reflexivity|].
  apply (m2_never_infeasible bad_numbers (widgets2_model bad_numbers)).
  - exact (proj1 Scenario.the_data_well_formed).
  - exact (proj1 (proj2 Scenario.the_data_well_formed)).
  - discriminate.
  - vm_compute. reflexivity.
Defined.

(** X18: the status on which [optimize] ends for the second model is the one
    [expected_outcome] computes from the data alone: without a facility,
    infeasible if a demand is positive and optimal otherwise; with a
    facility, optimal if no pair was given a negative cost and, if one was,
    unbounded or infeasible-or-unbounded. *)
Theorem m2_status_decided (d : Data) (M : Model) (o : Outcome) :
  NoDup (production d) -> NoDup (distribution d) ->
  m2 d = Ok M ->
  optimize M o ->
  may_end (expected_outcome d) o = true.
Proof.
  intros HP HD HM Ho. apply Closed.m2_inv in HM. subst M.
  exact (Ray.expected_outcome_only d o HP HD Ho).
Qed.

Lemma m2_status_decided_witness :
  expected_outcome subsidised = UNBOUNDED /\
  may_end (expected_outcome subsidised) INF_OR_UNBD = true /\
  may_end (expected_outcome the_data) (OPTIMAL (cheapest_plan the_data)) = true.
Proof.
  split; [vm_compute; reflexivity|]. split; [vm_compute; reflexivity|].
  exact (m2_status_decided the_data (widgets2_model the_data)
           (OPTIMAL (cheapest_plan the_data))
           (proj1 Scenario.the_data_well_formed)
           (proj1 (proj2 Scenario.the_data_well_formed))
           Scenario.the_m2 Scenario.the_plan_optimal).
Defined.

(** X19: when the rows of the cost table come in the order of the pairs,
    facility by facility and location by location, the total cost reported
    for a solution of the second model equals cost times shipment added up
    over the rows of the extracted solution with a positive shipment. *)
Theorem aligned_round_trip (d : Data) (M : Model) (xs : tupledict) (X : Solution) :
  widgets2 d = Ok (M, xs) ->
  pd.index (transp_cost d) = keys d ->
  optimize M (OPTIMAL X) ->
  total_cost M X == recomputed_cost (sol2 d xs X).
Proof.
  intros Hrun Hal [HX _].
  destruct (Closed.widgets2_runs d _ Hrun) as (_ & _ & _ & Hnd).
  destruct (Closed.widgets2_inv d M xs Hrun) as [-> ->].
  apply Widgets2.feasible_iff in HX. destruct HX as [Hpos _].
  assert (Hnd' : NoDup (pd.index (transp_cost d))) by (rewrite Hal; exact Hnd).
  rewrite (RoundTrip.recomputed_cost_closed d X Hnd' Hpos), Hal.
  rewrite (Frames.filter_all (in_keys d) (keys d)
             (fun k Hk => proj2 (RoundTrip.in_keys_iff d k) Hk)).
  unfold total_cost. fold (ObjVal (widgets2_model d) X).
  rewrite Widgets2.ObjVal_closed. apply Qsum_ext_in. intros k _.
  rewrite (RoundTrip.aligned_costs d k Hal). reflexivity.
Qed.

Lemma aligned_round_trip_witness :
  pd.index (transp_cost the_data) = keys the_data /\
  total_cost (widgets2_model the_data) (cheapest_plan the_data) ==
  recomputed_cost (sol2 the_data (widgets2_x the_data) (cheapest_plan the_data)).
Proof.
  split; [reflexivity|].
  exact (aligned_round_trip the_data (widgets2_model the_data)
           (widgets2_x the_data) (cheapest_plan the_data)
           Scenario.the_widgets2 eq_refl Scenario.the_plan_optimal).
Defined.

(** X20: where [addVars] gave every location one cheapest pair, at a positive
    cost, the second model has one optimal solution: each location receives
    its demand, if positive, from the facility of that pair, and nothing
    else is shipped. *)
Theorem m2_optimum_unique (d : Data) (M : Model) (X : Solution) (k : Key) :
  NoDup (production d) -> NoDup (distribution d) -> production d <> [] ->
  (forall l, In l (distribution d) -> 0 < cost_of d (cheapest d l, l)) ->
  (forall p l, In p (production d) -> In l (distribution d) ->
               p <> cheapest d l ->
               cost_of d (cheapest d l, l) < cost_of d (p, l)) ->
  m2 d = Ok M ->
  optimize M (OPTIMAL X) ->
  In k (keys d) ->
  X k == (if (cheapest d (snd k) =? fst k)%string
          then pos_part (demand_of d (snd k)) else 0).
Proof.
  intros HP _ Hne Hposc Hstrict HM Hopt Hk. apply Closed.m2_inv in HM. subst M.
  exact (Optimum.optimal_is_cheapest_plan d X HP Hne Hposc Hstrict Hopt k Hk).
Qed.

Lemma m2_optimum_unique_witness :
  optimize (widgets2_model displayed_data) (OPTIMAL (cheapest_plan displayed_data)) /\
  forall X, optimize (widgets2_model displayed_data) (OPTIMAL X) ->
            X ("Cleveland", "Nashville")%string == 101 /\
            X ("Birmingham", "Nashville")%string == 0.
Proof.
  split; [exact Displayed.plan_optimal|].
  intros X HX.
  pose proof (fun k => m2_optimum_unique displayed_data
                         (widgets2_model displayed_data) X k
                         (proj1 Displayed.well_formed_)
                         (proj1 (proj2 Displayed.well_formed_))
                         Scenario.the_production_nonempty
                         Displayed.cheapest_positive Displayed.cheapest_alone
                         Displayed.displayed_m2 HX) as H.
  split.
  - rewrite (H ("Cleveland", "Nashville")%string); [|vm_compute; tauto].
    vm_compute. reflexivity.
  - rewrite (H ("Birmingham", "Nashville")%string); [|vm_compute; tauto].
    vm_compute. reflexivity.
Defined.
